(** * Recipe-Genie: cache, ingredient normaliser and shopping-list merge engine

    A shallow embedding of the algorithmic core of the application:

    - [cleanIngredientText] (types.ts), the ingredient-text normaliser, over a
      small backtracking regular-expression matcher that follows the
      ECMAScript priority order (greedy quantifiers, ordered alternation);
    - [getCachedMatches], [addToCache] and [handleUpdateRecipeImage] (App.tsx);
    - [isRecipeInList] and [toggleShoppingList] (App.tsx);
    - [getItemPriceDisplay] (components/ShoppingList.tsx);
    - the search path of [handleSearch] and [loadMore], [handleToggleFavorite],
      [toggleShoppingItem] and [removeFromShoppingList] (App.tsx);
    - [toggleProtein] and [addAllToShoppingList] (components/Planner.tsx);
    - [getItemDisplay], [calculateTotal] and [groupedItems]
      (components/ShoppingList.tsx).

    Conventions.  A JavaScript string is a sequence of UTF-16 code units; the
    model covers the strings all of whose code units are below 256 and writes
    one code unit as one [ascii] (read as Latin-1).  Inside that range
    [toLowerCase], the class [\s] and [trim] are modelled in full.  Integral
    JavaScript numbers (minutes, difficulty levels) are [Z].  A React state
    update [setX(prev => f prev)] is modelled by the function [f]; values
    captured by the closure of the render are explicit arguments. *)

From Stdlib Require Import ZArith NArith Ascii String List Bool Lia.
From Stdlib Require Import SpecFloat DecimalString.
From stdpp Require Import base list strings gmap.

Local Open Scope string_scope.
Local Open Scope list_scope.

(* ===================================================================== *)
(** * JavaScript string primitives *)
(* ===================================================================== *)

Module JsString.

(** A string as its sequence of code units. *)
Definition chars (s : string) : list ascii := list_ascii_of_string s.
Definition str (l : list ascii) : string := string_of_list_ascii l.

Definition code (c : ascii) : N := N_of_ascii c.

Definition between (lo hi : N) (c : ascii) : bool :=
  ((lo <=? code c) && (code c <=? hi))%N.

(** [\d] *)
Definition isDigit (c : ascii) : bool := between 48 57 c.

(** [[a-z]] *)
Definition isLowerAZ (c : ascii) : bool := between 97 122 c.

(** [\s]: WhiteSpace and LineTerminator code units below 256, that is
    TAB, LF, VT, FF, CR, SPACE and NBSP. *)
Definition isSpace (c : ascii) : bool :=
  between 9 13 c || (code c =? 32)%N || (code c =? 160)%N.

(** [String.prototype.toLowerCase] on one code unit: A-Z and the Latin-1
    capitals U+00C0..U+00DE (except the multiplication sign U+00D7) move up
    by 32; every other code unit below 256 is its own lower case. *)
Definition toLowerChar (c : ascii) : ascii :=
  if between 65 90 c || (between 192 222 c && negb (code c =? 215)%N)
  then ascii_of_N (code c + 32)
  else c.

Definition toLowerCase (s : list ascii) : list ascii := map toLowerChar s.

Fixpoint trimStart (s : list ascii) : list ascii :=
  match s with
  | c :: t => if isSpace c then trimStart t else s
  | [] => []
  end.

Definition trimEnd (s : list ascii) : list ascii := rev (trimStart (rev s)).

(** [String.prototype.trim] *)
Definition trim (s : list ascii) : list ascii := trimEnd (trimStart s).

Fixpoint startsWith (pre s : list ascii) : bool :=
  match pre, s with
  | [], _ => true
  | p :: pre', c :: s' => Ascii.eqb p c && startsWith pre' s'
  | _ :: _, [] => false
  end.

(** [String.prototype.endsWith] *)
Definition endsWith (suf s : list ascii) : bool := startsWith (rev suf) (rev s).

(** [s.slice(0, -1)] *)
Definition sliceDropLast (s : list ascii) : list ascii := removelast s.

(** The string is not empty and its last code unit is white space. *)
Definition lastIsSpace (s : list ascii) : bool :=
  match rev s with
  | c :: _ => isSpace c
  | [] => false
  end.

(** The string is not empty and its first code unit satisfies [p]. *)
Definition headIs (p : ascii -> bool) (s : list ascii) : bool :=
  match s with
  | c :: _ => p c
  | [] => false
  end.

(** [Array.prototype.join] on strings. *)
Fixpoint join (sep : string) (l : list string) : string :=
  match l with
  | [] => ""
  | [x] => x
  | x :: rest => x ++ sep ++ join sep rest
  end.

End JsString.

(* ===================================================================== *)
(** * Regular expressions with ECMAScript backtracking order *)
(* ===================================================================== *)

Module Regex.
Import JsString.

(** The fragment used by the sources: literals, classes, sequence, ordered
    alternation, greedy [?], and greedy [*] / [+] over a character class. *)
Inductive regex : Type :=
| Eps
| Chr (c : ascii)
| Cls (p : ascii -> bool)
| Seq (a b : regex)
| Alt (a b : regex)
| Opt (a : regex)
| Star (p : ascii -> bool)
| Plus (p : ascii -> bool).

(** Remainders left by [p*], longest consumption first. *)
Fixpoint star (p : ascii -> bool) (s : list ascii) : list (list ascii) :=
  match s with
  | c :: t => if p c then star p t ++ [s] else [s]
  | [] => [[]]
  end.

(** [matches r s]: every way [r] can match a prefix of [s], given by the
    remainder it leaves, in the order in which a backtracking matcher tries
    them.  The head of the list is the match that ECMAScript reports. *)
Fixpoint matches (r : regex) (s : list ascii) : list (list ascii) :=
  match r with
  | Eps => [s]
  | Chr c =>
      match s with
      | c' :: t => if Ascii.eqb c c' then [t] else []
      | [] => []
      end
  | Cls p =>
      match s with
      | c' :: t => if p c' then [t] else []
      | [] => []
      end
  | Seq a b => flat_map (matches b) (matches a s)
  | Alt a b => matches a s ++ matches b s
  | Opt a => matches a s ++ [s]
  | Star p => star p s
  | Plus p =>
      match s with
      | c :: t => if p c then star p t else []
      | [] => []
      end
  end.

(** The match at the current position: the remainder after it. *)
Definition exec (r : regex) (s : list ascii) : option (list ascii) :=
  hd_error (matches r s).

(** Literal word. *)
Fixpoint lit (w : list ascii) : regex :=
  match w with
  | [] => Eps
  | c :: t => Seq (Chr c) (lit t)
  end.

Definition word (w : string) : regex := lit (chars w).

Fixpoint alts (rs : list regex) : regex :=
  match rs with
  | [] => Cls (fun _ => false)
  | [r] => r
  | r :: rest => Alt r (alts rest)
  end.

(** [s.replace(/^r/, '')]: a pattern that starts with [^] (and has no [m]
    flag) can only match at index 0. *)
Definition replaceAnchored (r : regex) (s : list ascii) : list ascii :=
  match exec r s with
  | Some rest => rest
  | None => s
  end.

(** [s.replace(/r/g, '')]: scan left to right; at each index try the
    pattern, drop the matched code units and resume after them; an index
    with no match (or an empty match) keeps its code unit.  [skip] counts
    the code units of the current match that are still to be dropped. *)
Fixpoint replaceAllFrom (r : regex) (skip : nat) (s : list ascii) : list ascii :=
  match s with
  | [] => []
  | c :: t =>
      match skip with
      | S n => replaceAllFrom r n t
      | O =>
          match exec r s with
          | Some rest =>
              match length s - length rest with
              | S n => replaceAllFrom r n t
              | O => c :: replaceAllFrom r 0 t
              end
          | None => c :: replaceAllFrom r 0 t
          end
      end
  end.

Definition replaceAll (r : regex) (s : list ascii) : list ascii :=
  replaceAllFrom r 0 s.

(** [s.match(/r/)] without [^]: the first index at which the pattern
    matches; returns the matched text. *)
Fixpoint search (r : regex) (s : list ascii) : option (list ascii) :=
  match exec r s with
  | Some rest => Some (take (length s - length rest) s)
  | None =>
      match s with
      | [] => None
      | _ :: t => search r t
      end
  end.

End Regex.

(* ===================================================================== *)
(** * types.ts: data model and [cleanIngredientText] *)
(* ===================================================================== *)

Inductive MealType : Type := LUNCH | DINNER.

Inductive Protein : Type :=
| ANY | CHICKEN | BEEF | PORK | LAMB | FISH | VEGETARIAN.

(** Field names follow types.ts; where two interfaces share a field name
    ([id], [store], [price], [mealType], ...) the later record prefixes it. *)
Record Ingredient : Type := mkIngredient {
  item : string;
  ing_store : string;
  ing_price : option string
}.

Record Recipe : Type := mkRecipe {
  id : string;
  title : string;
  description : string;
  mealType : MealType;
  protein : Protein;
  prepTimeMinutes : Z;
  difficulty : Z;
  ingredients : list Ingredient;
  instructions : list string;
  image : option string
}.

Record FilterState : Type := mkFilterState {
  f_mealType : MealType;
  f_protein : list Protein;
  f_maxTime : Z;
  f_supermarket : string;
  f_difficulty : string
}.

Record IngredientContribution : Type := mkContribution {
  recipeId : string;
  recipeTitle : string;
  text : string;
  price : option string
}.

Record ShoppingListItem : Type := mkItem {
  item_id : string;
  name : string;
  store : string;
  checked : bool;
  contributions : list IngredientContribution
}.

Record DayPlan : Type := mkDayPlan {
  lunch : option Recipe;
  dinner : option Recipe
}.

Module Normalizer.
Import JsString Regex.

(** [/\([^)]*\)/g] *)
Definition parenRegex : regex :=
  Seq (Chr "(") (Seq (Star (fun c => negb (Ascii.eqb c ")"))) (Chr ")")).

(** [[a-z0-9\s]] *)
Definition isKept (c : ascii) : bool := isLowerAZ c || isDigit c || isSpace c.

(** [/[^a-z0-9\s]/g] *)
Definition specialRegex : regex := Cls (fun c => negb (isKept c)).

(** [[\d\.\/\s]] *)
Definition isQuantityChar (c : ascii) : bool :=
  isDigit c || Ascii.eqb c "." || Ascii.eqb c "/" || isSpace c.

(** [w s?] *)
Definition plural (w : string) : regex := Seq (word w) (Opt (Chr "s")).

(** [(g|kg|ml|l|oz|lb|cups?|tsp|tbsp|pinch|bunch|pieces?|slices?|cans?|tins?|bottles?|packets?|jars?|cloves?|heads?|stalks?|fillets?)] *)
Definition unitRegex : regex :=
  alts [ word "g"; word "kg"; word "ml"; word "l"; word "oz"; word "lb";
         plural "cup"; word "tsp"; word "tbsp"; word "pinch"; word "bunch";
         plural "piece"; plural "slice"; plural "can"; plural "tin";
         plural "bottle"; plural "packet"; plural "jar"; plural "clove";
         plural "head"; plural "stalk"; plural "fillet" ].

(** [/^([\d\.\/\s]+)?(g|kg|...)?\s+(of\s+)?/], without the [^]. *)
Definition quantityRegex : regex :=
  Seq (Opt (Plus isQuantityChar))
    (Seq (Opt unitRegex)
      (Seq (Plus isSpace)
        (Opt (Seq (word "of") (Plus isSpace))))).

(** [/^[\d\s\.\/]+/], without the [^]. *)
Definition leadingNumberRegex : regex := Plus isQuantityChar.

(** The last step of [cleanIngredientText]: drop a trailing [s] unless the
    text is short or ends in [ss]. *)
Definition singularize (cleaned : list ascii) : list ascii :=
  if (3 <? length cleaned)%nat
     && endsWith (chars "s") cleaned
     && negb (endsWith (chars "ss") cleaned)
  then sliceDropLast cleaned
  else cleaned.

Definition cleanChars (text : list ascii) : list ascii :=
  let cleaned := toLowerCase text in
  let cleaned := replaceAll parenRegex cleaned in
  let cleaned := replaceAll specialRegex cleaned in
  let cleaned := trim (replaceAnchored quantityRegex cleaned) in
  let cleaned := trim (replaceAnchored leadingNumberRegex cleaned) in
  singularize cleaned.

Definition cleanIngredientText (text : string) : string :=
  str (cleanChars (chars text)).

End Normalizer.

Import Normalizer.

(* ===================================================================== *)
(** * App.tsx: the recipe cache *)
(* ===================================================================== *)

#[global] Instance MealType_eq_dec : EqDecision MealType.
Proof. solve_decision. Defined.

#[global] Instance Protein_eq_dec : EqDecision Protein.
Proof. solve_decision. Defined.

(** [Array.prototype.includes] *)
Definition includes {A : Type} `{EqDecision A} (l : list A) (x : A) : bool :=
  existsb (fun y => bool_decide (y = x)) l.

Module Cache.

(** The callback of [recipeCache.filter] in [getCachedMatches]. *)
Definition cacheMatch (currentFilters : FilterState) (r : Recipe) : bool :=
  if negb (bool_decide (mealType r = f_mealType currentFilters)) then false
  else
    let proteinMatch :=
      includes (f_protein currentFilters) ANY
      || includes (f_protein currentFilters) (protein r) in
    if negb proteinMatch then false
    else if (prepTimeMinutes r >? f_maxTime currentFilters)%Z then false
    else if negb (String.eqb (f_difficulty currentFilters) "Any") then
      let level := difficulty r in
      if String.eqb (f_difficulty currentFilters) "Easy" && (level >? 2)%Z
      then false
      else if String.eqb (f_difficulty currentFilters) "Medium"
              && ((level <? 3)%Z || (level >? 3)%Z)
      then false
      else if String.eqb (f_difficulty currentFilters) "Hard" && (level <? 4)%Z
      then false
      else true
    else true.

(** The difficulty band in the words of the specification: "Easy" admits
    levels up to 2, "Medium" exactly 3, "Hard" 4 and above; no other label
    (in particular "Any") constrains the level. *)
Definition difficultyBand (label : string) (level : Z) : Prop :=
  (label = "Easy" -> (level <= 2)%Z)
  /\ (label = "Medium" -> level = 3%Z)
  /\ (label = "Hard" -> (4 <= level)%Z).

(** The conditions of the specification's [match] operation. *)
Definition admits (currentFilters : FilterState) (r : Recipe) : Prop :=
  mealType r = f_mealType currentFilters
  /\ (ANY ∈ f_protein currentFilters \/ protein r ∈ f_protein currentFilters)
  /\ (prepTimeMinutes r <= f_maxTime currentFilters)%Z
  /\ difficultyBand (f_difficulty currentFilters) (difficulty r).

#[global] Instance admits_dec currentFilters r : Decision (admits currentFilters r).
Proof. unfold admits, difficultyBand. apply _. Defined.

Definition getCachedMatches (recipeCache : list Recipe)
    (currentFilters : FilterState) : list Recipe :=
  List.filter (cacheMatch currentFilters) recipeCache.

(** The updater that [addToCache] hands to [setRecipeCache]. *)
Definition addToCache (newRecipes : list Recipe) (prev : list Recipe)
    : list Recipe :=
  let existingTitles : gset string := list_to_set (map title prev) in
  let uniqueNew :=
    List.filter (fun r => negb (bool_decide (title r ∈ existingTitles)))
                newRecipes in
  if (length uniqueNew =? 0)%nat then prev else prev ++ uniqueNew.

End Cache.

(* ===================================================================== *)
(** * App.tsx: patching a generated image into every collection *)
(* ===================================================================== *)

Module Images.

(** The four collections of the session that hold recipe records.  The
    weekly plan is a JavaScript object keyed by day name.  The handler copies
    it shallowly ([{ ...weeklyPlan }]) and writes the records of its slots in
    place, so a generated plan and all the copies made of it share their day
    objects: a plan object is modelled by the address of these shared days,
    [planHeap] gives their present contents, and the state [weeklyPlan] says
    which plan is the current one. *)
Record Session : Type := mkSession {
  recipes : list Recipe;
  favoriteRecipes : list Recipe;
  recipeCache : list Recipe;
  planHeap : gmap nat (gmap string DayPlan);
  weeklyPlan : option nat
}.

(** The plan the screen shows. *)
Definition currentPlan (s : Session) : option (gmap string DayPlan) :=
  match weeklyPlan s with
  | Some a => planHeap s !! a
  | None => None
  end.

(** [{ ...r, image: img }] *)
Definition withImage (img : string) (r : Recipe) : Recipe :=
  {| id := id r; title := title r; description := description r;
     mealType := mealType r; protein := protein r;
     prepTimeMinutes := prepTimeMinutes r; difficulty := difficulty r;
     ingredients := ingredients r; instructions := instructions r;
     image := Some img |}.

(** [prev.map(r => r.id === id ? { ...r, image: img } : r)] *)
Definition patchList (id0 img : string) (prev : list Recipe) : list Recipe :=
  map (fun r => if String.eqb (id r) id0 then withImage img r else r) prev.

(** [slot && slot?.id === id] *)
Definition slotHasId (id0 : string) (slot : option Recipe) : bool :=
  match slot with
  | Some r => String.eqb (id r) id0
  | None => false
  end.

(** [if (slot && slot?.id === id) slot!.image = img].  The source writes the
    slot's record in place.  A record object shared with another collection
    has the same id there, where the [map] above gives it the same image, so
    the collections can be described by their values. *)
Definition patchSlot (id0 img : string) (slot : option Recipe) : option Recipe :=
  if slotHasId id0 slot then withImage img <$> slot else slot.

Definition patchDay (id0 img : string) (day : DayPlan) : DayPlan :=
  {| lunch := patchSlot id0 img (lunch day);
     dinner := patchSlot id0 img (dinner day) |}.

(** The [forEach] over [Object.keys(newPlan)]: the plan after the writes,
    and the flag [planChanged]. *)
Definition patchPlan (id0 img : string) (plan : gmap string DayPlan)
    : gmap string DayPlan * bool :=
  (patchDay id0 img <$> plan,
   existsb (fun kd => slotHasId id0 (lunch kd.2) || slotHasId id0 (dinner kd.2))
           (map_to_list plan)).

(** [handleUpdateRecipeImage].  The three lists are updated from their
    current value ([prev => ...]).  The plan is not: the handler reads
    [weeklyPlan0], the plan captured by the render that created the handler,
    writes the days of that plan in place and, when a slot matched, makes a
    copy of that plan the current one ([setWeeklyPlan(newPlan)]). *)
Definition handleUpdateRecipeImage (weeklyPlan0 : option nat)
    (id0 img : string) (s : Session) : Session :=
  let '(heap, current) :=
    match weeklyPlan0 with
    | Some a =>
        match planHeap s !! a with
        | Some plan =>
            let '(newPlan, planChanged) := patchPlan id0 img plan in
            (<[a := newPlan]> (planHeap s),
             if planChanged then Some a else weeklyPlan s)
        | None => (planHeap s, weeklyPlan s)
        end
    | None => (planHeap s, weeklyPlan s)
    end in
  {| recipes := patchList id0 img (recipes s);
     favoriteRecipes := patchList id0 img (favoriteRecipes s);
     recipeCache := patchList id0 img (recipeCache s);
     planHeap := heap;
     weeklyPlan := current |}.

(** ** Relating a record to its patched copy *)

(** [r'] is [r] after the patch: the image is set when the id is the target,
    and the record is untouched otherwise. *)
Definition patched (id0 img : string) (r r' : Recipe) : Prop :=
  (id r = id0 -> r' = withImage img r) /\ (id r <> id0 -> r' = r).

Definition patchedDay (id0 img : string) (d d' : DayPlan) : Prop :=
  option_Forall2 (patched id0 img) (lunch d) (lunch d')
  /\ option_Forall2 (patched id0 img) (dinner d) (dinner d').

(** A session in which the plan was regenerated after a handler was
    created: plan 0, captured by the handler, holds recipe "a"; the current
    plan 1 holds recipe "b". *)
Definition regeneratedSession : Session :=
  {| recipes := []; favoriteRecipes := []; recipeCache := [];
     planHeap :=
       {[ 0%nat := {[ "Monday" :=
                        mkDayPlan
                          (Some (mkRecipe "a" "Soup" "" LUNCH BEEF 20 2 [] [] None))
                          None ]};
          1%nat := {[ "Monday" :=
                        mkDayPlan
                          (Some (mkRecipe "b" "Salad" "" LUNCH FISH 10 1 [] [] None))
                          None ]} ]};
     weeklyPlan := Some 1%nat |}.

End Images.

(* ===================================================================== *)
(** * App.tsx: the shopping list *)
(* ===================================================================== *)

Module Shopping.

(** [shoppingList.some(item => item.contributions.some(c => c.recipeTitle === title))] *)
Definition isRecipeInList (shoppingList : list ShoppingListItem)
    (title0 : string) : bool :=
  existsb (fun it =>
             existsb (fun c => String.eqb (recipeTitle c) title0)
                     (contributions it))
          shoppingList.

(** [{ ...item, contributions: cs }] *)
Definition withContributions (cs : list IngredientContribution)
    (it : ShoppingListItem) : ShoppingListItem :=
  {| item_id := item_id it; name := name it; store := store it;
     checked := checked it; contributions := cs |}.

(** [{ ...item, contributions: item.contributions.filter(c => c.recipeTitle !== title) }] *)
Definition stripRecipe (recipeTitle0 : string) (it : ShoppingListItem)
    : ShoppingListItem :=
  withContributions
    (List.filter (fun c => negb (String.eqb (recipeTitle c) recipeTitle0))
                 (contributions it))
    it.

(** REMOVE LOGIC: the updater of the first branch of [toggleShoppingList]. *)
Definition removeRecipe (recipeTitle0 : string) (prev : list ShoppingListItem)
    : list ShoppingListItem :=
  List.filter
    (fun it => (0 <? length (contributions it))%nat)
    (map (stripRecipe recipeTitle0) prev).

(** [Array.prototype.findIndex]; [None] stands for the result [-1]. *)
Fixpoint findIndex {A : Type} (p : A -> bool) (l : list A) : option nat :=
  match l with
  | [] => None
  | x :: t => if p x then Some 0%nat else S <$> findIndex p t
  end.

(** [ing.store || 'Any'] *)
Definition storeOrAny (s : string) : string :=
  if String.eqb s "" then "Any" else s.

Definition contributionOf (recipe : Recipe) (ing : Ingredient)
    : IngredientContribution :=
  {| recipeId := id recipe; recipeTitle := title recipe;
     text := item ing; price := ing_price ing |}.

(** [{ ...old, checked: false, contributions: [...old.contributions, c] }] *)
Definition mergeInto (c : IngredientContribution) (old : ShoppingListItem)
    : ShoppingListItem :=
  {| item_id := item_id old; name := name old; store := store old;
     checked := false; contributions := contributions old ++ [c] |}.

(** The callback of [newList.findIndex]:
    [item => item.store === store && item.name === normName]. *)
Definition sameKey (store0 normName : string) (it : ShoppingListItem) : bool :=
  String.eqb (store it) store0 && String.eqb (name it) normName.

(** The merge key of an item. *)
Definition key (it : ShoppingListItem) : string * string := (store it, name it).

Definition newItem (id0 store0 normName : string) (c : IngredientContribution)
    : ShoppingListItem :=
  {| item_id := id0; name := normName; store := store0; checked := false;
     contributions := [c] |}.

(** The ids of new items come from [Math.random()]; the model takes the
    successive draws of one invocation as a function [rand] of the number of
    draws made so far, and threads that count with the list. *)
Definition addIngredient (rand : nat -> string) (recipe : Recipe)
    (acc : list ShoppingListItem * nat) (ing : Ingredient)
    : list ShoppingListItem * nat :=
  let '(newList, drawn) := acc in
  let normName := cleanIngredientText (item ing) in
  let store0 := storeOrAny (ing_store ing) in
  let existingItemIndex := findIndex (sameKey store0 normName) newList in
  let contribution := contributionOf recipe ing in
  match existingItemIndex with
  | Some i => (alter (mergeInto contribution) i newList, drawn)
  | None =>
      (newList ++ [newItem (rand drawn) store0 normName contribution], S drawn)
  end.

(** ADD LOGIC: the updater of the second branch of [toggleShoppingList]. *)
Definition addRecipe (rand : nat -> string) (recipe : Recipe)
    (prev : list ShoppingListItem) : list ShoppingListItem :=
  (fold_left (addIngredient rand recipe) (ingredients recipe) (prev, 0%nat)).1.

(** [toggleShoppingList]: the membership test reads [shoppingList], the list
    captured by the render in which the handler was created; the state
    updater it returns is applied to the list current at that time. *)
Definition toggleShoppingList (shoppingList : list ShoppingListItem)
    (rand : nat -> string) (recipe : Recipe)
    : list ShoppingListItem -> list ShoppingListItem :=
  if isRecipeInList shoppingList (title recipe)
  then removeRecipe (title recipe)
  else addRecipe rand recipe.

(** ** Auxiliary views of a list, used to state the merge properties *)

(** One merge step written by recursion on the list: the first item with
    the key absorbs the contribution; without one a new item is appended. *)
Fixpoint mergeContribution (id0 store0 normName : string)
    (c : IngredientContribution) (l : list ShoppingListItem)
    : list ShoppingListItem :=
  match l with
  | [] => [newItem id0 store0 normName c]
  | it :: t =>
      if sameKey store0 normName it then mergeInto c it :: t
      else it :: mergeContribution id0 store0 normName c t
  end.

(** The contributions held by the (first) item with a given key; empty when
    the list has no such item. *)
Definition keyContribs (store0 normName : string) (l : list ShoppingListItem)
    : list IngredientContribution :=
  match List.find (sameKey store0 normName) l with
  | Some it => contributions it
  | None => []
  end.


(** Does the ingredient resolve to the given key? *)
Definition ingredientHasKey (store0 normName : string) (ing : Ingredient) : bool :=
  String.eqb (storeOrAny (ing_store ing)) store0
  && String.eqb (cleanIngredientText (item ing)) normName.

(** The contributions a recipe makes to a given key, in ingredient order. *)
Definition contribsFor (store0 normName : string) (recipe : Recipe)
    : list IngredientContribution :=
  map (contributionOf recipe)
      (List.filter (ingredientHasKey store0 normName) (ingredients recipe)).

End Shopping.

(* ===================================================================== *)
(** * JavaScript numbers: IEEE 754 binary64 *)
(* ===================================================================== *)

Module JsNumber.
Import JsString.
Local Open Scope Z_scope.

Definition prec : Z := 53.
Definition emax : Z := 1024.

(** A Number value. *)
Definition number : Type := spec_float.

Definition zero : number := S754_zero false.

(** [x + y] *)
Definition add (x y : number) : number := SFadd prec emax x y.

(** [x > 0] *)
Definition isPositive (x : number) : bool := SFltb zero x.

(** The Number value (round to nearest, ties to even) of the rational
    [m / d], for [0 <= m] and [0 < d]. *)
Definition ofRatio (m d : Z) : number :=
  match m with
  | Z0 => zero
  | _ =>
      let '(q, e, loc) := SFdiv_core_binary prec emax m 0 d 0 in
      binary_round_aux prec emax false q e loc
  end.

(** The Number value of a non-negative integer. *)
Definition ofInteger (m : Z) : number := binary_normalize prec emax m 0 false.

Definition digitValue (c : ascii) : Z := Z.of_N (code c) - 48.

(** The integer written by a string of decimal digits. *)
Definition digitsValue (ds : list ascii) : Z :=
  fold_left (fun acc c => 10 * acc + digitValue c)%Z ds 0%Z.

Fixpoint takeDigits (s : list ascii) : list ascii :=
  match s with
  | c :: t => if isDigit c then c :: takeDigits t else []
  | [] => []
  end.

Fixpoint dropDigits (s : list ascii) : list ascii :=
  match s with
  | c :: t => if isDigit c then dropDigits t else s
  | [] => []
  end.

(** [parseFloat] on a string that starts with an unsigned decimal literal
    without exponent ([digits], [digits.digits], [.digits]): the longest
    such prefix is converted.  Signs, exponents and leading white space,
    which the caller never passes, are not modelled; no digit at all gives
    NaN. *)
Definition parseFloat (s : list ascii) : number :=
  let intPart := takeDigits s in
  let fracPart :=
    match dropDigits s with
    | c :: t => if Ascii.eqb c "." then takeDigits t else []
    | [] => []
    end in
  match intPart ++ fracPart with
  | [] => S754_nan
  | ds => ofRatio (digitsValue ds) (10 ^ Z.of_nat (length fracPart))
  end.

(** Decimal digits of a non-negative integer. *)
Definition decimal (n : Z) : string := NilZero.string_of_uint (N.to_uint (Z.to_N n)).

(** [n] written with two decimals, [n] being the value times 100. *)
Definition fixed2 (n : Z) : string :=
  let ds := chars (decimal n) in
  let ds := repeat "0"%char (3 - length ds)%nat ++ ds in
  str (take (length ds - 2)%nat ds ++ "."%char :: drop (length ds - 2)%nat ds).

(** Round [m * 2^e * 100] to the nearest integer, ties upwards. *)
Definition hundredths (m : positive) (e : Z) : Z :=
  match e with
  | Zneg p => (Zpos m * 200 + 2 ^ Zpos p) / 2 ^ (Zpos p + 1)
  | _ => Zpos m * 2 ^ e * 100
  end.

(** The exact integer value of a finite number with [0 <= e]. *)
Definition integerValue (m : positive) (e : Z) : Z := Zpos m * 2 ^ e.

(** Candidates with [k] significant digits for an integer-valued number
    [x = X]: the two multiples of [10^(nd-k)] around [X] that convert back to
    [x]; the closer one wins, then the even one.  The result is the digit
    string [s] and the decimal exponent [n]. *)
Definition shortestAt (x : number) (X : Z) (nd k : Z) : option (Z * Z) :=
  let p := 10 ^ (nd - k) in
  let lo := X / p in
  let hi := lo + 1 in
  let okLo := SFeqb (ofInteger (lo * p)) x && (10 ^ (k - 1) <=? lo) in
  let okHi := SFeqb (ofInteger (hi * p)) x in
  let pick (s : Z) := if s =? 10 ^ k then (10 ^ (k - 1), nd + 1) else (s, nd) in
  match okLo, okHi with
  | true, true =>
      let dLo := X - lo * p in
      let dHi := hi * p - X in
      if dLo <? dHi then Some (pick lo)
      else if dHi <? dLo then Some (pick hi)
      else if Z.even lo then Some (pick lo) else Some (pick hi)
  | true, false => Some (pick lo)
  | false, true => Some (pick hi)
  | false, false => None
  end.

Fixpoint shortestFrom (fuel : nat) (x : number) (X : Z) (nd k : Z) : Z * Z :=
  match shortestAt x X nd k with
  | Some r => r
  | None =>
      match fuel with
      | S fuel' => shortestFrom fuel' x X nd (k + 1)
      | O => (X / 10 ^ (nd - k), nd)
      end
  end.

(** [Number::toString] for an integer-valued [x >= 10^21]: the shortest
    digit string that converts back to [x], in exponent notation. *)
Definition toStringLarge (x : number) (X : Z) : string :=
  let nd := Z.of_nat (length (chars (decimal X))) in
  let '(s, n) := shortestFrom 16%nat x X nd 1 in
  match chars (decimal s) with
  | [] => ""%string
  | [d] => (str [d] ++ "e+" ++ decimal (n - 1))%string
  | d :: rest => (str (d :: "."%char :: rest) ++ "e+" ++ decimal (n - 1))%string
  end.

(** [x.toFixed(2)] *)
Definition toFixed2 (x : number) : string :=
  match x with
  | S754_nan => "NaN"
  | S754_infinity false => "Infinity"
  | S754_infinity true => "-Infinity"
  | S754_zero _ => "0.00"
  | S754_finite sign m e =>
      ((if sign then "-" else "")
       ++ (if ((0 <=? e) && (10 ^ 21 <=? integerValue m e))%Z
           then toStringLarge (S754_finite false m e) (integerValue m e)
           else fixed2 (hundredths m e)))%string
  end.

End JsNumber.

(* ===================================================================== *)
(** * components/ShoppingList.tsx: the price of a line *)
(* ===================================================================== *)

Module Price.
Import JsString Regex JsNumber.

(** [/(\d+(\.\d+)?)/] *)
Definition priceRegex : regex :=
  Seq (Plus isDigit) (Opt (Seq (Chr ".") (Plus isDigit))).

(** [p.match(/(\d+(\.\d+)?)/)]: the text of [match[0]], if any. *)
Definition numericPart (p : string) : option (list ascii) :=
  search priceRegex (chars p).

(** [item.contributions.map(c => c.price).filter(p => p)]: prices that are
    present and not the empty string. *)
Definition pricesOf (it : ShoppingListItem) : list string :=
  omap (fun c => match price c with
                 | Some p => if String.eqb p "" then None else Some p
                 | None => None
                 end)
       (contributions it).

(** One turn of the [for (const p of prices)] loop on [(sum, allParseable)]. *)
Definition priceStep (acc : number * bool) (p : string) : number * bool :=
  let '(sum, allParseable) := acc in
  match numericPart p with
  | Some matched => (add sum (parseFloat matched), allParseable)
  | None => (sum, false)
  end.

Definition getItemPriceDisplay (it : ShoppingListItem) : option string :=
  let prices := pricesOf it in
  match prices with
  | [] => None
  | [p] => Some p
  | _ =>
      let '(sum, allParseable) := fold_left priceStep prices (zero, true) in
      if allParseable && isPositive sum
      then Some ("$" ++ toFixed2 sum)%string
      else Some (join " + " prices)
  end.

(** ** The statement of the specification, and the quantities it names *)

(** The sum of the numeric parts, added in order from 0. *)
Definition priceSum (prices : list string) : number :=
  fold_left add (map parseFloat (omap numericPart prices)) zero.

(** Every price string has a numeric part. *)
Definition allParse (prices : list string) : Prop :=
  Forall (fun p => is_Some (numericPart p)) prices.

#[global] Instance allParse_dec prices : Decision (allParse prices).
Proof. unfold allParse. apply _. Defined.

(** The display as the specification words it: the sum with two decimals
    whenever every price parses, the joined raw strings otherwise. *)
Definition specPriceDisplay (it : ShoppingListItem) : string :=
  if decide (allParse (pricesOf it))
  then ("$" ++ toFixed2 (priceSum (pricesOf it)))%string
  else join " + " (pricesOf it).

Definition priced (ps : list string) : ShoppingListItem :=
  {| item_id := "i1"; name := "tomato"; store := "Any"; checked := false;
     contributions := map (fun p => mkContribution "r" "R" "tomato" (Some p)) ps |}.

(** The finite number [m * 2^e] is below [10^21], the bound up to which
    [toFixed] writes plain decimals. *)
Definition below1e21 (m : positive) (e : Z) : Prop :=
  match e with
  | Zneg p => (Zpos m < 10 ^ 21 * 2 ^ Zpos p)%Z
  | _ => (Zpos m * 2 ^ e < 10 ^ 21)%Z
  end.

(** A text with two decimal places: one or more digits, a point, two
    digits. *)
Definition twoDecimals (s : string) : Prop :=
  exists ints d1 d2,
    chars s = ints ++ ["."%char; d1; d2]
    /\ ints <> []
    /\ Forall (fun c => isDigit c = true) (ints ++ [d1; d2]).

(** A line whose contributions partly lack a price. *)
Definition partlyPriced : ShoppingListItem :=
  mkItem "i1" "tomato" "Any" false
    [ mkContribution "r1" "Salad" "2 Tomatoes" None;
      mkContribution "r2" "Soup" "tomato" (Some "");
      mkContribution "r3" "Stew" "Tomatoes" (Some "$3.50");
      mkContribution "r4" "Pie" "Tomato" None;
      mkContribution "r5" "Dip" "Tomato" (Some "$1.25") ].

End Price.

(* ===================================================================== *)
(** * App.tsx: favourites, search results and single list entries *)
(* ===================================================================== *)

Module Favorites.

(** [favoriteRecipes.find(r => r.title === recipe.title)] *)
Definition findFavorite (favoriteRecipes : list Recipe) (recipe : Recipe)
    : option Recipe :=
  List.find (fun r => String.eqb (title r) (title recipe)) favoriteRecipes.

(** [isFav] *)
Definition isFav (favoriteRecipes : list Recipe) (recipe : Recipe) : bool :=
  match findFavorite favoriteRecipes recipe with
  | Some _ => true
  | None => false
  end.

(** [handleToggleFavorite]: the test reads the list captured by the render,
    the updater it passes to [setFavoriteRecipes] gets the current list. *)
Definition handleToggleFavorite (favoriteRecipes : list Recipe) (recipe : Recipe)
    : list Recipe -> list Recipe :=
  match findFavorite favoriteRecipes recipe with
  | Some _ =>
      fun prev =>
        List.filter (fun r => negb (String.eqb (title r) (title recipe))) prev
  | None => fun prev => prev ++ [recipe]
  end.

End Favorites.

Module Search.
Import Cache.

(** [map.set(k, v)] on a [Map] kept as its entries in insertion order: an
    existing key keeps its place and takes the new value. *)
Fixpoint mapSet (k : string) (v : Recipe) (m : list (string * Recipe))
    : list (string * Recipe) :=
  match m with
  | [] => [(k, v)]
  | (k', v') :: t =>
      if String.eqb k' k then (k, v) :: t else (k', v') :: mapSet k v t
  end.

(** [Array.from(new Map(combined.map(item => [item.title, item])).values())] *)
Definition uniqueByTitle (combined : list Recipe) : list Recipe :=
  map snd (fold_left (fun m r => mapSet (title r) r m) combined []).

(** [handleSearch] after the three fetches: the recipes shown. *)
Definition searchResults (batch1 batch2 batch3 : list Recipe) : list Recipe :=
  uniqueByTitle (batch1 ++ batch2 ++ batch3).

(** [handleSearch] after the three fetches: the update of the cache. *)
Definition cacheAfterSearch (batch1 batch2 batch3 : list Recipe)
    (recipeCache : list Recipe) : list Recipe :=
  addToCache (searchResults batch1 batch2 batch3) recipeCache.

(** [matches.length >= 9] *)
Definition cacheSufficient (matches : list Recipe) : bool :=
  (9 <=? length matches)%nat.

(** [shuffled.slice(0, 9)]; [shuffled] is the outcome of the random sort. *)
Definition servedPage (shuffled : list Recipe) : list Recipe := take 9 shuffled.

(** [loadMore]: the cached matches not yet displayed. *)
Definition availableInCache (recipeCache recipes : list Recipe)
    (filters : FilterState) : list Recipe :=
  let matches := getCachedMatches recipeCache filters in
  let currentTitles : gset string := list_to_set (map title recipes) in
  List.filter (fun r => negb (bool_decide (title r ∈ currentTitles))) matches.

(** The filter with another difficulty label. *)
Definition withDifficulty (label : string) (f : FilterState) : FilterState :=
  {| f_mealType := f_mealType f; f_protein := f_protein f;
     f_maxTime := f_maxTime f; f_supermarket := f_supermarket f;
     f_difficulty := label |}.

End Search.

Module ListEntries.

(** [removeFromShoppingList]: [prev.filter(item => item.id !== id)] *)
Definition removeFromShoppingList (id0 : string) (prev : list ShoppingListItem)
    : list ShoppingListItem :=
  List.filter (fun it => negb (String.eqb (item_id it) id0)) prev.

(** [toggleShoppingItem]:
    [prev.map(item => item.id === id ? { ...item, checked: !item.checked } : item)] *)
Definition toggleShoppingItem (id0 : string) (prev : list ShoppingListItem)
    : list ShoppingListItem :=
  map (fun it =>
         if String.eqb (item_id it) id0
         then {| item_id := item_id it; name := name it; store := store it;
                 checked := negb (checked it);
                 contributions := contributions it |}
         else it)
      prev.

(** The item with its [checked] flag cleared; two lists with equal images
    under this map differ at most in the flags. *)
Definition unchecked_view (it : ShoppingListItem) : ShoppingListItem :=
  {| item_id := item_id it; name := name it; store := store it;
     checked := false; contributions := contributions it |}.

(** [it'] is [it] with possibly more contributions at the end (the [checked]
    flag is free). *)
Definition extends (it it' : ShoppingListItem) : Prop :=
  item_id it' = item_id it /\ name it' = name it /\ store it' = store it
  /\ contributions it `prefix_of` contributions it'.

End ListEntries.

Module ImagesAux.
Import Images.

(** The callback of the three [map]s of [handleUpdateRecipeImage]. *)
Definition patchOne (id0 img : string) (r : Recipe) : Recipe :=
  if String.eqb (id r) id0 then withImage img r else r.

End ImagesAux.

(* ===================================================================== *)
(** * components/Planner.tsx *)
(* ===================================================================== *)

Module Planner.
Import Shopping.

(** [toggleProtein]: the value passed to [setPreferences], from the
    preferences of the current render. *)
Definition toggleProtein (preferences : list Protein) (p : Protein)
    : list Protein :=
  if bool_decide (p = ANY) then [ANY]
  else
    let newPrefs := preferences in
    let newPrefs := if includes newPrefs ANY then [] else newPrefs in
    let newPrefs :=
      if includes newPrefs p
      then List.filter (fun x => negb (bool_decide (x = p))) newPrefs
      else newPrefs ++ [p] in
    if (length newPrefs =? 0)%nat then [ANY] else newPrefs.

(** The lunch, then the dinner, of one day, when present. *)
Definition daySlots (day : DayPlan) : list Recipe :=
  match lunch day with Some r => [r] | None => [] end
  ++ match dinner day with Some r => [r] | None => [] end.

(** [allRecipes] of [handleGenerate]; [days] is [Object.values(plan)]. *)
Definition allRecipes (days : list DayPlan) : list Recipe :=
  flat_map daySlots days.

(** One slot of [addAllToShoppingList]: a recipe whose title is not in the
    list of the current render is handed to [toggleShoppingList] (created by
    the same render) and counted.  The accumulator is the composition of the
    state updaters queued so far and [count]; the [count]-th invocation draws
    its ids from [rands count]. *)
Definition addSlot (shoppingList : list ShoppingListItem)
    (rands : nat -> nat -> string)
    (acc : (list ShoppingListItem -> list ShoppingListItem) * nat)
    (r : Recipe)
    : (list ShoppingListItem -> list ShoppingListItem) * nat :=
  let '(update, count) := acc in
  if negb (isRecipeInList shoppingList (title r))
  then (fun prev => toggleShoppingList shoppingList (rands count) r (update prev),
        S count)
  else (update, count).

(** [addAllToShoppingList] on a plan: the overall state update and [count]. *)
Definition addAllToShoppingList (shoppingList : list ShoppingListItem)
    (rands : nat -> nat -> string) (days : list DayPlan)
    : (list ShoppingListItem -> list ShoppingListItem) * nat :=
  fold_left (addSlot shoppingList rands) (allRecipes days)
            (fun prev => prev, 0%nat).

(** The slots that pass the membership test. *)
Definition admitted (shoppingList : list ShoppingListItem) (days : list DayPlan)
    : list Recipe :=
  List.filter (fun r => negb (isRecipeInList shoppingList (title r)))
              (allRecipes days).

(** A two-day plan and a list on screen that holds its last recipe. *)
Definition soup : Recipe :=
  mkRecipe "r1" "Soup" "" LUNCH ANY 20 1
    [mkIngredient "2 Tomatoes" "Aldi" (Some "$3.50")] [] None.

Definition pie : Recipe :=
  mkRecipe "r2" "Pie" "" DINNER BEEF 40 2
    [mkIngredient "Tomatoes (diced)" "Aldi" (Some "$1.25")] [] None.

Definition stew : Recipe :=
  mkRecipe "r3" "Stew" "" DINNER BEEF 40 2
    [mkIngredient "1 Onion" "" None] [] None.

Definition twoDays : list DayPlan :=
  [mkDayPlan (Some soup) (Some pie); mkDayPlan None (Some stew)].

Definition stewOnScreen : list ShoppingListItem :=
  [mkItem "i0" "onion" "Any" true [mkContribution "r3" "Stew" "1 Onion" None]].

End Planner.

(* ===================================================================== *)
(** * components/ShoppingList.tsx: labels, total and grouping *)
(* ===================================================================== *)

Inductive Supermarket : Type := AnyStore | Aldi | Coles | Woolworths.

#[global] Instance Supermarket_eq_dec : EqDecision Supermarket.
Proof. solve_decision. Defined.

Module ListView.
Import JsString JsNumber Price.

(** [Array.from(new Set(xs))]: the distinct values in order of first
    occurrence. *)
Definition distinct (xs : list string) : list string :=
  fold_left (fun seen x => if bool_decide (x ∈ seen) then seen else seen ++ [x])
            xs [].

(** [getItemDisplay] *)
Definition getItemDisplay (it : ShoppingListItem) : string :=
  let texts := distinct (map text (contributions it)) in
  match texts with
  | [t] => t
  | _ => join " + " texts
  end.

(** [calculateTotal] *)
Definition calculateTotal (items : list ShoppingListItem) : number :=
  fold_left
    (fun total it =>
       fold_left
         (fun total c =>
            match price c with
            | Some p =>
                if String.eqb p "" then total
                else match numericPart p with
                     | Some matched => add total (parseFloat matched)
                     | None => total
                     end
            | None => total
            end)
         (contributions it) total)
    items zero.

(** [String.prototype.includes] *)
Fixpoint includesStr (needle hay : list ascii) : bool :=
  startsWith needle hay
  || match hay with
     | [] => false
     | _ :: t => includesStr needle t
     end.

Definition supermarketName (s : Supermarket) : string :=
  match s with
  | AnyStore => "Any"
  | Aldi => "Aldi"
  | Coles => "Coles"
  | Woolworths => "Woolworths"
  end.

(** The [storeKey] computed in the reducer of [groupedItems]. *)
Definition storeKey (shopAt : Supermarket) (it : ShoppingListItem) : string :=
  if negb (bool_decide (shopAt = AnyStore)) then supermarketName shopAt
  else
    let store0 := if String.eqb (store it) "" then "Other" else store it in
    let lower := toLowerCase (chars store0) in
    if includesStr (chars "aldi") lower then "Aldi"
    else if includesStr (chars "coles") lower then "Coles"
    else if includesStr (chars "woolworths") lower then "Woolworths"
    else "Other".

(** [groupedItems]: the reducer creates the array of a key the first time it
    sees it and pushes the item. *)
Definition groupedItems (shopAt : Supermarket) (items : list ShoppingListItem)
    : gmap string (list ShoppingListItem) :=
  fold_left
    (fun acc it =>
       let k := storeKey shopAt it in
       <[k := default [] (acc !! k) ++ [it]]> acc)
    items ∅.

End ListView.


(* ===================================================================== *)
(** * Facts about the string primitives and the matcher *)
(* ===================================================================== *)

Module StringFacts.
Import JsString Regex.

Ltac ascii_cases c := destruct c as [[] [] [] [] [] [] [] []].

Lemma chars_str l : chars (str l) = l.
Proof. apply list_ascii_of_string_of_list_ascii. Qed.

Lemma str_chars s : str (chars s) = s.
Proof. apply string_of_list_ascii_of_string. Qed.

Lemma str_inj a b : str a = str b -> a = b.
Proof. intros H. rewrite <- (chars_str a), <- (chars_str b). now rewrite H. Qed.

(** ** trim *)

Lemma trimStart_length s : length (trimStart s) <= length s.
Proof. induction s as [|c t IH]; simpl; [lia|]. destruct (isSpace c); simpl; lia. Qed.

Lemma trimEnd_length s : length (trimEnd s) <= length s.
Proof.
  unfold trimEnd. rewrite length_rev.
  etransitivity; [apply trimStart_length|]. now rewrite length_rev.
Qed.

Lemma trim_length s : length (trim s) <= length s.
Proof.
  unfold trim. etransitivity; [apply trimEnd_length|apply trimStart_length].
Qed.

Lemma trimStart_id s : headIs isSpace s = false -> trimStart s = s.
Proof. destruct s as [|c t]; simpl; [easy|]. now intros ->. Qed.

Lemma trimStart_head s : headIs isSpace (trimStart s) = false.
Proof.
  induction s as [|c t IH]; simpl; [easy|].
  destruct (isSpace c) eqn:E; [exact IH|]. simpl. exact E.
Qed.

Lemma trimEnd_id s : lastIsSpace s = false -> trimEnd s = s.
Proof.
  unfold lastIsSpace, trimEnd. intros H.
  rewrite trimStart_id; [apply rev_involutive|exact H].
Qed.

Lemma trimEnd_last s : lastIsSpace (trimEnd s) = false.
Proof.
  unfold lastIsSpace, trimEnd. rewrite rev_involutive.
  apply (trimStart_head (rev s)).
Qed.

Lemma trimEnd_shrinks s : lastIsSpace s = true -> length (trimEnd s) < length s.
Proof.
  unfold lastIsSpace, trimEnd. rewrite length_rev, <- (length_rev s).
  destruct (rev s) as [|c t]; simpl; [discriminate|].
  intros ->. pose proof (trimStart_length t). lia.
Qed.

Lemma trimStart_snoc l c :
  isSpace c = false -> trimStart (l ++ [c]) = trimStart l ++ [c].
Proof.
  intros Hc. induction l as [|d t IH]; simpl; [now rewrite Hc|].
  destruct (isSpace d); [exact IH|reflexivity].
Qed.

Lemma trimEnd_cons c t :
  isSpace c = false -> exists t', trimEnd (c :: t) = c :: t'.
Proof.
  intros Hc. unfold trimEnd. simpl rev.
  rewrite trimStart_snoc by exact Hc. rewrite rev_app_distr. simpl. eauto.
Qed.

(** [trim] keeps a first code unit that is not white space, and the result
    never ends in white space. *)
Lemma trim_head p s :
  (forall c, p c = false -> isSpace c = false) ->
  headIs p s = false -> headIs p (trim s) = false.
Proof.
  intros Hp. destruct s as [|c t]; [reflexivity|]. simpl headIs. intros Hc.
  unfold trim. simpl trimStart. rewrite (Hp c Hc).
  destruct (trimEnd_cons c t (Hp c Hc)) as [t' ->]. exact Hc.
Qed.

Lemma trim_last s : lastIsSpace (trim s) = false.
Proof. apply trimEnd_last. Qed.

Lemma trim_id s :
  headIs isSpace s = false -> lastIsSpace s = false -> trim s = s.
Proof.
  intros H1 H2. unfold trim. rewrite trimStart_id by exact H1.
  now apply trimEnd_id.
Qed.

Lemma Forall_trimStart (P : ascii -> Prop) s : Forall P s -> Forall P (trimStart s).
Proof.
  induction 1 as [|c t Hc Ht IH]; simpl; [constructor|].
  destruct (isSpace c); [exact IH|now constructor].
Qed.

Lemma Forall_trim (P : ascii -> Prop) s : Forall P s -> Forall P (trim s).
Proof.
  intros H. unfold trim, trimEnd.
  apply Forall_rev, Forall_trimStart, Forall_rev, Forall_trimStart, H.
Qed.

(** ** The matcher only ever consumes a prefix *)

Lemma star_suffix p s rest : In rest (star p s) -> rest `suffix_of` s.
Proof.
  revert rest. induction s as [|c t IH]; simpl; intros rest.
  - intros [<-|[]]. reflexivity.
  - destruct (p c).
    + rewrite in_app_iff. simpl. intros [H|[<-|[]]]; [|reflexivity].
      now apply suffix_cons_r, IH.
    + intros [<-|[]]. reflexivity.
Qed.

Lemma matches_suffix r : forall s rest, In rest (matches r s) -> rest `suffix_of` s.
Proof.
  induction r as [|c|p|a IHa b IHb|a IHa b IHb|a IHa|p|p]; simpl; intros s rest.
  - intros [<-|[]]. reflexivity.
  - destruct s as [|c' t]; [easy|]. destruct (Ascii.eqb c c'); [|easy].
    intros [<-|[]]. now apply suffix_cons_r.
  - destruct s as [|c' t]; [easy|]. destruct (p c'); [|easy].
    intros [<-|[]]. now apply suffix_cons_r.
  - rewrite in_flat_map. intros (mid & Hm & Hr).
    etransitivity; [apply (IHb _ _ Hr)|apply (IHa _ _ Hm)].
  - rewrite in_app_iff. intros [H|H]; [now apply IHa|now apply IHb].
  - rewrite in_app_iff. simpl. intros [H|[<-|[]]]; [now apply IHa|reflexivity].
  - apply star_suffix.
  - destruct s as [|c t]; [easy|]. destruct (p c); [|easy].
    intros H. now apply suffix_cons_r, star_suffix with p.
Qed.

Lemma matches_length r s rest : In rest (matches r s) -> length rest <= length s.
Proof. intros H. apply suffix_length, (matches_suffix r), H. Qed.

Lemma plus_consumes p s rest : In rest (matches (Plus p) s) -> length rest < length s.
Proof.
  simpl. destruct s as [|c t]; [easy|]. destruct (p c); [|easy].
  intros H%star_suffix%suffix_length. simpl. lia.
Qed.

Lemma exec_In r s rest : exec r s = Some rest -> In rest (matches r s).
Proof. unfold exec. destruct (matches r s); simpl; [easy|]. intros [= ->]. now left. Qed.

Lemma replaceAnchored_length r s : length (replaceAnchored r s) <= length s.
Proof.
  unfold replaceAnchored. destruct (exec r s) eqn:E; [|lia].
  now apply (matches_length r), exec_In.
Qed.

Lemma Forall_suffix (P : ascii -> Prop) (s rest : list ascii) :
  rest `suffix_of` s -> Forall P s -> Forall P rest.
Proof. intros [pre ->] H. now apply Forall_app in H as [_ H]. Qed.

Lemma Forall_replaceAnchored (P : ascii -> Prop) r s :
  Forall P s -> Forall P (replaceAnchored r s).
Proof.
  unfold replaceAnchored. destruct (exec r s) eqn:E; [|easy].
  apply Forall_suffix, (matches_suffix r), exec_In, E.
Qed.

(** ** Greedy [p+] at the start drops the longest run *)

Lemma star_head p s :
  exists rest more, star p s = rest :: more /\ headIs p rest = false
                    /\ rest `suffix_of` s.
Proof.
  induction s as [|c t (rest & more & E & H & Hs)]; simpl.
  - exists [], []. repeat split; reflexivity.
  - destruct (p c) eqn:Hc.
    + rewrite E. exists rest, (more ++ [c :: t]). repeat split; [exact H|].
      now apply suffix_cons_r.
    + exists (c :: t), []. repeat split; [exact Hc|reflexivity].
Qed.

Lemma replaceAnchored_plus_head p s :
  headIs p (replaceAnchored (Plus p) s) = false.
Proof.
  unfold replaceAnchored, exec. simpl. destruct s as [|c t]; [reflexivity|].
  destruct (p c) eqn:Hc; [|simpl; exact Hc].
  destruct (star_head p t) as (rest & more & -> & H & _). exact H.
Qed.

Lemma replaceAnchored_plus_id p s :
  headIs p s = false -> replaceAnchored (Plus p) s = s.
Proof.
  unfold replaceAnchored, exec. destruct s as [|c t]; simpl; [easy|]. now intros ->.
Qed.

(** ** Global replacement *)

Lemma replaceAll_id r s :
  Forall (fun c => forall t, exec r (c :: t) = None) s -> replaceAll r s = s.
Proof.
  unfold replaceAll. induction 1 as [|c t Hc Ht IH]; simpl; [reflexivity|].
  fold (exec r (c :: t)). rewrite Hc. now f_equal.
Qed.

Lemma replaceAllFrom_length r s : forall skip, length (replaceAllFrom r skip s) <= length s.
Proof.
  induction s as [|c t IH]; intros skip; [simpl; lia|].
  cbn [replaceAllFrom]. destruct skip as [|n].
  - destruct (exec r (c :: t)) as [rest|].
    + destruct (length (c :: t) - length rest)%nat as [|n].
      * specialize (IH 0%nat). simpl. lia.
      * specialize (IH n). simpl. lia.
    + specialize (IH 0%nat). simpl. lia.
  - specialize (IH n). simpl. lia.
Qed.

(** Removing one class of code units is a filter. *)
Lemma replaceAll_class p s :
  replaceAll (Cls p) s = List.filter (fun c => negb (p c)) s.
Proof.
  unfold replaceAll. induction s as [|c t IH]; [reflexivity|].
  cbn [replaceAllFrom List.filter]. unfold exec. cbn [matches].
  destruct (p c); cbn [hd_error negb].
  - replace (length (c :: t) - length t)%nat with 1%nat by (simpl; lia).
    exact IH.
  - now f_equal.
Qed.

End StringFacts.

(* ===================================================================== *)
(** * The ingredient normaliser *)
(* ===================================================================== *)

Module NormalizerFacts.
Import JsString Regex Normalizer StringFacts.

Lemma kept_toLower c : isKept c = true -> toLowerChar c = c.
Proof. ascii_cases c; vm_compute; intros H; try reflexivity; discriminate H. Qed.

Lemma kept_not_paren c : isKept c = true -> Ascii.eqb "(" c = false.
Proof. ascii_cases c; vm_compute; intros H; try reflexivity; discriminate H. Qed.

Lemma not_quantity_not_space c : isQuantityChar c = false -> isSpace c = false.
Proof. unfold isQuantityChar. now intros H%orb_false_elim. Qed.

Lemma headIs_quantity_space s :
  headIs isQuantityChar s = false -> headIs isSpace s = false.
Proof. destruct s; simpl; [easy|apply not_quantity_not_space]. Qed.

(** ** Naive singularisation *)

Lemma singularize_cases z :
  singularize z = z
  \/ exists y, z = y ++ chars "s" /\ singularize z = y
               /\ endsWith (chars "s") y = false /\ 3 <= length y.
Proof.
  unfold singularize.
  destruct (3 <? length z)%nat eqn:Hlen; [|now left].
  destruct (endsWith (chars "s") z) eqn:Hs; [|now left].
  destruct (endsWith (chars "ss") z) eqn:Hss; [now left|]. right.
  unfold endsWith in *. cbn [chars list_ascii_of_string rev app] in *.
  destruct (rev z) as [|c r] eqn:Hrev; [discriminate|].
  cbn [startsWith] in Hs, Hss. rewrite andb_true_r in Hs.
  apply Ascii.eqb_eq in Hs. subst c. rewrite Ascii.eqb_refl in Hss.
  assert (Hz : z = rev r ++ ["s"%char]).
  { rewrite <- (rev_involutive z), Hrev. reflexivity. }
  exists (rev r). split; [exact Hz|]. cbn [andb negb]. unfold sliceDropLast.
  split; [rewrite Hz; apply removelast_last|].
  split; [now rewrite rev_involutive|].
  apply Nat.ltb_lt in Hlen. rewrite Hz, length_app in Hlen. simpl in Hlen. lia.
Qed.

Lemma singularize_idem z : singularize (singularize z) = singularize z.
Proof.
  destruct (singularize_cases z) as [E|(y & _ & E & Hy & _)]; rewrite E.
  - exact E.
  - unfold singularize. rewrite Hy, andb_false_r. reflexivity.
Qed.

Lemma singularize_length z : length (singularize z) <= length z.
Proof.
  destruct (singularize_cases z) as [E|(y & Hz & E & _)]; rewrite E; [lia|].
  rewrite Hz, length_app. lia.
Qed.

Lemma singularize_head p z : headIs p (singularize z) = headIs p z.
Proof.
  destruct (singularize_cases z) as [E|(y & Hz & E & _ & Hlen)]; rewrite E;
    [reflexivity|].
  rewrite Hz. destruct y; [simpl in Hlen; lia|reflexivity].
Qed.

Lemma Forall_singularize (P : ascii -> Prop) z :
  Forall P z -> Forall P (singularize z).
Proof.
  destruct (singularize_cases z) as [E|(y & Hz & E & _)]; rewrite E; [easy|].
  rewrite Hz. now intros [H _]%Forall_app.
Qed.

(** ** What every key looks like *)

(** A key holds only lower-case letters, digits and white space, does not
    start with a digit or white space, and is stable under singularisation. *)
Record canonical (y : list ascii) : Prop := mkCanonical {
  can_kept : Forall (fun c => isKept c = true) y;
  can_head : headIs isQuantityChar y = false;
  can_sing : singularize y = y
}.

Lemma Forall_replaceAll_special s :
  Forall (fun c => isKept c = true) (replaceAll specialRegex s).
Proof.
  unfold specialRegex. rewrite replaceAll_class.
  induction s as [|c t IH]; simpl; [constructor|].
  destruct (isKept c) eqn:E; simpl; [now constructor|exact IH].
Qed.

Lemma cleanChars_canonical x : canonical (cleanChars x).
Proof.
  unfold cleanChars. split.
  - apply Forall_singularize, Forall_trim, Forall_replaceAnchored, Forall_trim,
      Forall_replaceAnchored, Forall_replaceAll_special.
  - rewrite singularize_head. apply trim_head; [apply not_quantity_not_space|].
    apply replaceAnchored_plus_head.
  - apply singularize_idem.
Qed.

(** ** Normalising a key again *)

Lemma toLowerCase_kept y :
  Forall (fun c => isKept c = true) y -> toLowerCase y = y.
Proof.
  unfold toLowerCase. induction 1 as [|c t Hc _ IH]; simpl; [reflexivity|].
  now rewrite kept_toLower, IH.
Qed.

Lemma replaceAll_paren_kept y :
  Forall (fun c => isKept c = true) y -> replaceAll parenRegex y = y.
Proof.
  intros H. apply replaceAll_id. eapply Forall_impl; [exact H|].
  intros c Hc t. unfold exec, parenRegex. cbn [matches].
  now rewrite (kept_not_paren c Hc).
Qed.

Lemma replaceAll_special_kept y :
  Forall (fun c => isKept c = true) y -> replaceAll specialRegex y = y.
Proof.
  intros H. unfold specialRegex. rewrite replaceAll_class.
  induction H as [|c t Hc _ IH]; simpl; [reflexivity|].
  rewrite Hc. simpl. now f_equal.
Qed.

Lemma cleanChars_key y :
  canonical y ->
  cleanChars y =
  singularize (trim (replaceAnchored leadingNumberRegex
                       (trim (replaceAnchored quantityRegex y)))).
Proof.
  intros [Hk _ _]. unfold cleanChars.
  now rewrite toLowerCase_kept, replaceAll_paren_kept, replaceAll_special_kept.
Qed.

Lemma matches_seq a b s rest :
  In rest (matches (Seq a b) s) <->
  exists mid, In mid (matches a s) /\ In rest (matches b mid).
Proof. cbn [matches]. apply in_flat_map. Qed.

(** The quantity pattern contains a mandatory [\s+]: a match is never empty. *)
Lemma quantity_consumes s rest :
  exec quantityRegex s = Some rest -> length rest < length s.
Proof.
  intros H%exec_In. unfold quantityRegex in H.
  apply matches_seq in H as (m1 & H1 & H).
  apply matches_seq in H as (m2 & H2 & H).
  apply matches_seq in H as (m3 & H3 & H4).
  apply matches_length in H1, H2, H4. apply plus_consumes in H3. lia.
Qed.

Lemma cleanChars_length_key y :
  canonical y ->
  length (cleanChars y) <= length (trim (replaceAnchored quantityRegex y)).
Proof.
  intros Hy. rewrite (cleanChars_key y Hy).
  etransitivity; [apply singularize_length|].
  etransitivity; [apply trim_length|]. apply replaceAnchored_length.
Qed.

(** A key is a fixed point exactly when the quantity pattern does not match
    it and it does not end in white space. *)
Lemma cleanChars_fixed_iff y :
  canonical y ->
  cleanChars y = y <->
  exec quantityRegex y = None /\ lastIsSpace y = false.
Proof.
  intros Hy. pose proof (cleanChars_length_key y Hy) as Hlen.
  destruct Hy as [Hk Hh Hs]. pose proof (headIs_quantity_space y Hh) as Hsp.
  split.
  - intros Hfix. rewrite Hfix in Hlen.
    destruct (exec quantityRegex y) as [rest|] eqn:E.
    + exfalso. pose proof (quantity_consumes y rest E) as Hlt.
      pose proof (trim_length (replaceAnchored quantityRegex y)) as Ht.
      unfold replaceAnchored in Hlen, Ht. rewrite E in Hlen, Ht. lia.
    + split; [reflexivity|].
      destruct (lastIsSpace y) eqn:El; [exfalso|reflexivity].
      unfold replaceAnchored in Hlen. rewrite E in Hlen.
      unfold trim in Hlen. rewrite (trimStart_id y Hsp) in Hlen.
      pose proof (trimEnd_shrinks y El). lia.
  - intros [E El]. rewrite cleanChars_key by (now split).
    assert (Hq : replaceAnchored quantityRegex y = y).
    { unfold replaceAnchored. now rewrite E. }
    rewrite Hq, (trim_id y Hsp El).
    unfold leadingNumberRegex. rewrite (replaceAnchored_plus_id _ y Hh).
    now rewrite (trim_id y Hsp El).
Qed.

End NormalizerFacts.

Section NormalizerClaims.
Import JsString Regex Normalizer StringFacts NormalizerFacts.

(** C5 (counterexample).  The two example keys of the specification are not
    both produced: the first input does not normalise to "tomato". *)
Lemma cleanIngredientText_tomato_refuted :
  ~ (cleanIngredientText "2 cups (diced) Tomatoes" = "tomato"
     /\ cleanIngredientText "500g Chicken Breasts" = "chicken breast").
Proof. intros [H _]. vm_compute in H. discriminate H. Qed.

(** C5 (amended).  normalize("2 cups (diced) Tomatoes") is "tomatoe" (only
    the final "s" is dropped) and normalize("500g Chicken Breasts") is
    "chicken breast". *)
Theorem cleanIngredientText_examples :
  cleanIngredientText "2 cups (diced) Tomatoes" = "tomatoe"
  /\ cleanIngredientText "500g Chicken Breasts" = "chicken breast".
Proof. split; vm_compute; reflexivity. Qed.

(** C6 (counterexample).  The normaliser is not idempotent: "ab s" gives
    "ab " (with a trailing space), which normalises further to "ab". *)
Lemma cleanIngredientText_not_idempotent :
  ~ (forall x : string,
       cleanIngredientText (cleanIngredientText x) = cleanIngredientText x).
Proof. intros H. specialize (H "ab s"). vm_compute in H. discriminate H. Qed.

(** C6 (amended).  normalize(normalize(x)) = normalize(x) holds exactly for
    the inputs x whose key normalize(x) is not matched by the quantity
    pattern (it does not itself start with a unit word followed by white
    space) and does not end in white space. *)
Theorem cleanIngredientText_idempotent_iff (x : string) :
  cleanIngredientText (cleanIngredientText x) = cleanIngredientText x
  <->
  (exec quantityRegex (chars (cleanIngredientText x)) = None
   /\ lastIsSpace (chars (cleanIngredientText x)) = false).
Proof.
  unfold cleanIngredientText. rewrite chars_str.
  rewrite <- (cleanChars_fixed_iff _ (cleanChars_canonical (chars x))).
  split; [apply str_inj|now intros ->].
Qed.

(** C10.  Some input makes the normaliser return a key that ends in white
    space: "ab s" is already trimmed when the final "s" is dropped, which
    leaves "ab " (with the space).  Keys are therefore not always trimmed,
    and "ab s" and "ab" get distinct merge keys: a recipe that lists both
    produces two shopping-list items. *)
Theorem cleanIngredientText_trailing_space :
  (exists x : string, lastIsSpace (chars (cleanIngredientText x)) = true)
  /\ trim (chars "ab s") = chars "ab s"
  /\ singularize (chars "ab s") = chars "ab "
  /\ cleanIngredientText "ab s" = "ab "
  /\ cleanIngredientText "ab" = "ab"
  /\ cleanIngredientText "ab s" <> cleanIngredientText "ab"
  /\ forall rand : nat -> string,
       map name
         (Shopping.addRecipe rand
            (mkRecipe "r1" "Salad" "" DINNER ANY 10 1
               [mkIngredient "ab s" "Aldi" None; mkIngredient "ab" "Aldi" None]
               [] None)
            [])
       = ["ab "; "ab"].
Proof.
  split; [exists "ab s"; vm_compute; reflexivity|].
  repeat split; try (vm_compute; reflexivity).
  vm_compute. discriminate.
Qed.

(** The condition of [cleanIngredientText_idempotent_iff] at the second
    example of the specification. *)
Lemma cleanIngredientText_idempotent_iff_witness :
  cleanIngredientText (cleanIngredientText "500g Chicken Breasts")
  = cleanIngredientText "500g Chicken Breasts".
Proof.
  apply (proj2 (cleanIngredientText_idempotent_iff "500g Chicken Breasts")).
  split; vm_compute; reflexivity.
Defined.

End NormalizerClaims.

(* ===================================================================== *)
(** * The recipe cache *)
(* ===================================================================== *)

Section CacheClaims.
Import Cache.

Lemma filter_bool_decide {A : Type} (b : A -> bool) (P : A -> Prop)
    `{!forall x, Decision (P x)} (l : list A) :
  (forall x, b x = true <-> P x) -> List.filter b l = filter P l.
Proof.
  intros Hb. induction l as [|x t IH]; [reflexivity|].
  cbn [List.filter]. rewrite filter_cons, IH.
  destruct (decide (P x)) as [HP|HP].
  - apply Hb in HP. now rewrite HP.
  - destruct (b x) eqn:E; [|reflexivity]. apply Hb in E. contradiction.
Qed.

Lemma includes_elem_of {A : Type} `{EqDecision A} (l : list A) (x : A) :
  includes l x = true <-> x ∈ l.
Proof.
  unfold includes. rewrite existsb_exists. split.
  - intros (y & Hy & E). apply bool_decide_eq_true in E. subst y.
    now apply list_elem_of_In.
  - intros H. exists x. split; [now apply list_elem_of_In|].
    now apply bool_decide_eq_true.
Qed.

Lemma difficulty_check_band (label : string) (level : Z) :
  (if negb (String.eqb label "Any") then
     if String.eqb label "Easy" && (level >? 2)%Z then false
     else if String.eqb label "Medium" && ((level <? 3)%Z || (level >? 3)%Z)
     then false
     else if String.eqb label "Hard" && (level <? 4)%Z then false
     else true
   else true) = true
  <-> difficultyBand label level.
Proof.
  unfold difficultyBand.
  destruct (String.eqb_spec label "Any") as [->|_]; cbn [negb].
  { split; [|reflexivity]. intros _. repeat split; discriminate. }
  destruct (String.eqb_spec label "Easy") as [E1|E1];
    destruct (String.eqb_spec label "Medium") as [E2|E2];
    destruct (String.eqb_spec label "Hard") as [E3|E3];
    destruct (Z.gtb_spec level 2) as [L1|L1];
    destruct (Z.ltb_spec level 3) as [L2|L2];
    destruct (Z.gtb_spec level 3) as [L3|L3];
    destruct (Z.ltb_spec level 4) as [L4|L4];
    cbn [andb orb]; try lia; try congruence;
    (split;
     [ intros Hb; try discriminate Hb; repeat split; intros; try congruence; lia
     | intros (B1 & B2 & B3); try reflexivity; exfalso;
       try specialize (B1 E1); try specialize (B2 E2); try specialize (B3 E3);
       lia ]).
Qed.

Lemma cacheMatch_admits currentFilters r :
  cacheMatch currentFilters r = true <-> admits currentFilters r.
Proof.
  unfold cacheMatch, admits.
  rewrite <- difficulty_check_band, <- !includes_elem_of.
  destruct (bool_decide_reflect (mealType r = f_mealType currentFilters)) as [Hm|Hm];
    cbn [negb]; [|split; [discriminate|now intros [? _]]].
  destruct (includes (f_protein currentFilters) ANY
            || includes (f_protein currentFilters) (protein r)) eqn:Hp;
    cbn [negb].
  2:{ split; [discriminate|]. intros (_ & Hor & _).
      apply orb_false_elim in Hp as [Hp1 Hp2]. rewrite Hp1, Hp2 in Hor.
      destruct Hor; discriminate. }
  apply orb_true_iff in Hp.
  destruct (Z.gtb_spec (prepTimeMinutes r) (f_maxTime currentFilters)) as [Ht|Ht].
  { split; [discriminate|]. intros (_ & _ & Hle & _). lia. }
  split; [intros H; repeat split; assumption || lia|now intros (_ & _ & _ & H)].
Qed.

(** C3.  For every cache and every filter, [getCachedMatches] returns
    exactly the cached recipes (in cache order) whose meal type equals the
    filter's, whose protein is in the filter's protein list unless that list
    contains the wildcard "Any", whose preparation time is at most maxTime,
    and whose difficulty lies in the band of the filter's label: "Easy" up
    to 2, "Medium" exactly 3, "Hard" 4 and above, "Any" everything. *)
Theorem getCachedMatches_exact (recipeCache : list Recipe)
    (currentFilters : FilterState) :
  getCachedMatches recipeCache currentFilters
  = filter (admits currentFilters) recipeCache
  /\ (forall r, r ∈ getCachedMatches recipeCache currentFilters
                <-> r ∈ recipeCache /\ admits currentFilters r)
  /\ (forall level, difficultyBand "Easy" level <-> (level <= 2)%Z)
  /\ (forall level, difficultyBand "Medium" level <-> level = 3%Z)
  /\ (forall level, difficultyBand "Hard" level <-> (4 <= level)%Z)
  /\ (forall level, difficultyBand "Any" level).
Proof.
  assert (E : getCachedMatches recipeCache currentFilters
              = filter (admits currentFilters) recipeCache).
  { apply filter_bool_decide, cacheMatch_admits. }
  split; [exact E|]. split; [intros r; rewrite E, list_elem_of_filter; tauto|].
  unfold difficultyBand.
  repeat split; try discriminate; try tauto; intros;
    repeat match goal with H : _ /\ _ |- _ => destruct H end; auto.
Qed.

Lemma filter_titles_subset (f : Recipe -> bool) (l : list Recipe) t :
  t ∈ map title (List.filter f l) -> t ∈ map title l.
Proof.
  intros (r & -> & Hr)%list_elem_of_fmap. apply list_elem_of_fmap.
  exists r. split; [reflexivity|].
  apply list_elem_of_In, filter_In in Hr as [Hr _]. now apply list_elem_of_In.
Qed.

Lemma filter_titles_NoDup (f : Recipe -> bool) (l : list Recipe) :
  NoDup (map title l) -> NoDup (map title (List.filter f l)).
Proof.
  induction l as [|r t IH]; cbn [map List.filter]; [easy|].
  intros [Hr Ht]%NoDup_cons. destruct (f r); [|now apply IH].
  cbn [map]. apply NoDup_cons. split; [|now apply IH].
  intros Hin. now apply Hr, (filter_titles_subset f).
Qed.

(** Title uniqueness does survive an insert whose batch has pairwise distinct
    titles. *)
Lemma addToCache_NoDup (newRecipes prev : list Recipe) :
  NoDup (map title prev) ->
  NoDup (map title newRecipes) ->
  NoDup (map title (addToCache newRecipes prev)).
Proof.
  intros Hp Hn. unfold addToCache.
  destruct (length _ =? 0)%nat; [exact Hp|].
  rewrite map_app. apply NoDup_app. split; [exact Hp|].
  split; [|now apply filter_titles_NoDup].
  intros t Ht (r & -> & Hr)%list_elem_of_fmap.
  apply list_elem_of_In, filter_In in Hr as [_ Hr].
  apply negb_true_iff, bool_decide_eq_false in Hr.
  apply Hr. now apply elem_of_list_to_set.
Qed.

(** C4 (the code at the failing input).  Two candidates of one batch that
    share a title absent from the cache are both appended: the cache then
    holds two entries with that title. *)
Theorem addToCache_keeps_batch_duplicates (a b : Recipe) (prev : list Recipe) :
  title a = title b ->
  title a ∉ map title prev ->
  addToCache [a; b] prev = prev ++ [a; b].
Proof.
  intros Hab Ha. unfold addToCache. cbn [List.filter].
  rewrite <- Hab.
  assert (E : bool_decide (title a ∈ (list_to_set (map title prev) : gset string))
              = false).
  { apply bool_decide_eq_false. now rewrite elem_of_list_to_set. }
  rewrite E. reflexivity.
Qed.

Lemma addToCache_keeps_batch_duplicates_witness :
  Cache.addToCache
    [ mkRecipe "id1" "Soup" "" DINNER ANY 10 1 [] [] None;
      mkRecipe "id2" "Soup" "" DINNER ANY 20 2 [] [] None ] []
  = [ mkRecipe "id1" "Soup" "" DINNER ANY 10 1 [] [] None;
      mkRecipe "id2" "Soup" "" DINNER ANY 20 2 [] [] None ].
Proof.
  apply (addToCache_keeps_batch_duplicates
           (mkRecipe "id1" "Soup" "" DINNER ANY 10 1 [] [] None)
           (mkRecipe "id2" "Soup" "" DINNER ANY 20 2 [] [] None) []).
  - reflexivity.
  - simpl. apply not_elem_of_nil.
Defined.

End CacheClaims.


(* ===================================================================== *)
(** * Image fan-out *)
(* ===================================================================== *)

Module ImageFacts.
Import Images.

Lemma patched_refl id0 img r : id r <> id0 -> patched id0 img r r.
Proof. intros H. split; [contradiction|reflexivity]. Qed.

Lemma patchList_patched id0 img l :
  Forall2 (patched id0 img) l (patchList id0 img l).
Proof.
  induction l as [|r t IH]; cbn [patchList map]; constructor; [|exact IH].
  destruct (String.eqb_spec (id r) id0) as [E|E]; split; congruence.
Qed.

Lemma patchList_noop id0 img (l : list Recipe) :
  (forall r, r ∈ l -> id r <> id0) -> patchList id0 img l = l.
Proof.
  induction l as [|r t IH]; intros H; [reflexivity|]. cbn [patchList map].
  destruct (String.eqb_spec (id r) id0) as [E|E].
  - exfalso. apply (H r); [apply list_elem_of_here|exact E].
  - f_equal. apply IH. intros r' Hin. apply H. now apply list_elem_of_further.
Qed.

Lemma patchSlot_patched id0 img slot :
  option_Forall2 (patched id0 img) slot (patchSlot id0 img slot).
Proof.
  destruct slot as [r|]; unfold patchSlot, slotHasId; [|constructor].
  destruct (String.eqb_spec (id r) id0) as [E|E]; constructor; split; congruence.
Qed.

Lemma slot_untouched id0 img slot :
  slotHasId id0 slot = false -> option_Forall2 (patched id0 img) slot slot.
Proof.
  destruct slot as [r|]; cbn [slotHasId]; [|constructor].
  intros E%String.eqb_neq. constructor. now apply patched_refl.
Qed.

Lemma patchDay_patched id0 img d : patchedDay id0 img d (patchDay id0 img d).
Proof. split; apply patchSlot_patched. Qed.

(** [planChanged] is false exactly when no slot holds the target id. *)
Lemma planChanged_false id0 img (plan : gmap string DayPlan) :
  (patchPlan id0 img plan).2 = false <->
  forall day d, plan !! day = Some d ->
                slotHasId id0 (lunch d) = false
                /\ slotHasId id0 (dinner d) = false.
Proof.
  unfold patchPlan. cbn [snd]. split.
  - intros H day d Hd. apply orb_false_elim.
    apply not_true_is_false. intros Ht.
    assert (Hex : existsb
              (fun kd : string * DayPlan =>
                 slotHasId id0 (lunch kd.2) || slotHasId id0 (dinner kd.2))
              (map_to_list plan) = true); [|congruence].
    apply existsb_exists. exists (day, d). split; [|exact Ht].
    now apply list_elem_of_In, elem_of_map_to_list.
  - intros H. apply not_true_is_false. rewrite existsb_exists.
    intros ([day d] & Hin & Ht).
    apply list_elem_of_In, elem_of_map_to_list in Hin.
    destruct (H day d Hin) as [H1 H2]. cbn [snd] in Ht.
    rewrite H1, H2 in Ht. discriminate.
Qed.

End ImageFacts.

Module ImageHandlerFacts.
Import Images ImageFacts.

Lemma handler_recipes c id0 img s :
  recipes (handleUpdateRecipeImage c id0 img s) = patchList id0 img (recipes s).
Proof.
  unfold handleUpdateRecipeImage.
  destruct c as [a|]; [destruct (planHeap s !! a)|]; reflexivity.
Qed.

Lemma handler_favorites c id0 img s :
  favoriteRecipes (handleUpdateRecipeImage c id0 img s)
  = patchList id0 img (favoriteRecipes s).
Proof.
  unfold handleUpdateRecipeImage.
  destruct c as [a|]; [destruct (planHeap s !! a)|]; reflexivity.
Qed.

Lemma handler_cache c id0 img s :
  recipeCache (handleUpdateRecipeImage c id0 img s)
  = patchList id0 img (recipeCache s).
Proof.
  unfold handleUpdateRecipeImage.
  destruct c as [a|]; [destruct (planHeap s !! a)|]; reflexivity.
Qed.

Lemma handler_heap c id0 img s :
  planHeap (handleUpdateRecipeImage c id0 img s)
  = match c with
    | Some a =>
        match planHeap s !! a with
        | Some plan => <[a := patchDay id0 img <$> plan]> (planHeap s)
        | None => planHeap s
        end
    | None => planHeap s
    end.
Proof.
  unfold handleUpdateRecipeImage.
  destruct c as [a|]; [destruct (planHeap s !! a)|]; reflexivity.
Qed.

Lemma handler_current c id0 img s :
  weeklyPlan (handleUpdateRecipeImage c id0 img s)
  = match c with
    | Some a =>
        match planHeap s !! a with
        | Some plan =>
            if (patchPlan id0 img plan).2 then Some a else weeklyPlan s
        | None => weeklyPlan s
        end
    | None => weeklyPlan s
    end.
Proof.
  unfold handleUpdateRecipeImage.
  destruct c as [a|]; [destruct (planHeap s !! a)|]; reflexivity.
Qed.

(** The plan on screen after a handler created by the render of [s]. *)
Lemma handler_same_render id0 img s :
  currentPlan (handleUpdateRecipeImage (weeklyPlan s) id0 img s)
  = fmap (M := gmap string) (patchDay id0 img) <$> currentPlan s.
Proof.
  unfold currentPlan. rewrite handler_current, handler_heap.
  destruct (weeklyPlan s) as [a|]; [|reflexivity].
  destruct (planHeap s !! a) as [plan|] eqn:Hp.
  - destruct ((patchPlan id0 img plan).2); now rewrite lookup_insert_eq.
  - now rewrite Hp.
Qed.

End ImageHandlerFacts.

Section ImageClaims.
Import Images ImageFacts ImageHandlerFacts.

(** What [handleUpdateRecipeImage] does when the handler was created by the
    render of the session it updates: the image of each record with the id
    is set in the displayed results, the favourites, the cache and every
    lunch and dinner slot of the plan on screen; those records keep all their
    other fields, records with another id are left as they were, and a
    collection without a record of that id is unchanged.  For the three lists
    this holds whatever plan the handler captured. *)
Lemma handleUpdateRecipeImage_same_render (captured : option nat)
    (id0 img : string) (s : Session) :
  Forall2 (patched id0 img) (recipes s)
          (recipes (handleUpdateRecipeImage captured id0 img s))
  /\ Forall2 (patched id0 img) (favoriteRecipes s)
             (favoriteRecipes (handleUpdateRecipeImage captured id0 img s))
  /\ Forall2 (patched id0 img) (recipeCache s)
             (recipeCache (handleUpdateRecipeImage captured id0 img s))
  /\ (captured = weeklyPlan s ->
      option_Forall2
        (fun plan plan' : gmap string DayPlan =>
           forall day, option_Forall2 (patchedDay id0 img)
                                      (plan !! day) (plan' !! day))
        (currentPlan s)
        (currentPlan (handleUpdateRecipeImage captured id0 img s)))
  /\ (forall r,
        image (withImage img r) = Some img
        /\ id (withImage img r) = id r
        /\ title (withImage img r) = title r
        /\ description (withImage img r) = description r
        /\ mealType (withImage img r) = mealType r
        /\ protein (withImage img r) = protein r
        /\ prepTimeMinutes (withImage img r) = prepTimeMinutes r
        /\ difficulty (withImage img r) = difficulty r
        /\ ingredients (withImage img r) = ingredients r
        /\ instructions (withImage img r) = instructions r)
  /\ ((forall r, r ∈ recipes s -> id r <> id0) ->
      recipes (handleUpdateRecipeImage captured id0 img s) = recipes s)
  /\ ((forall r, r ∈ favoriteRecipes s -> id r <> id0) ->
      favoriteRecipes (handleUpdateRecipeImage captured id0 img s)
      = favoriteRecipes s)
  /\ ((forall r, r ∈ recipeCache s -> id r <> id0) ->
      recipeCache (handleUpdateRecipeImage captured id0 img s) = recipeCache s)
  /\ (captured = weeklyPlan s ->
      (forall plan day d,
          currentPlan s = Some plan -> plan !! day = Some d ->
          slotHasId id0 (lunch d) = false /\ slotHasId id0 (dinner d) = false) ->
      currentPlan (handleUpdateRecipeImage captured id0 img s) = currentPlan s).
Proof.
  rewrite handler_recipes, handler_favorites, handler_cache.
  repeat split; try apply patchList_patched; try (intros; now apply patchList_noop).
  - intros ->. rewrite handler_same_render.
    destruct (currentPlan s) as [plan|]; constructor. intros day.
    rewrite lookup_fmap. destruct (plan !! day) as [d|]; constructor.
    apply patchDay_patched.
  - intros -> H. rewrite handler_same_render.
    destruct (currentPlan s) as [plan|]; [|reflexivity]. cbn. f_equal.
    apply map_eq. intros day. rewrite lookup_fmap.
    destruct (plan !! day) as [d|] eqn:Hd; [|reflexivity]. cbn. f_equal.
    destruct (H plan day d eq_refl Hd) as [H1 H2].
    unfold patchDay, patchSlot. rewrite H1, H2. now destruct d.
Qed.

(** C9 (the code at the failing input).  The plan is not updated from its
    current value: a handler whose captured plan holds the id makes the
    patched copy of that captured plan the current plan.  When the plan was
    regenerated in between (a handler created under the plan with recipe "a",
    run when the plan on screen holds recipe "b"), the plan on screen is
    replaced by the old plan and the record "b", whose id is not the patched
    one, is gone. *)
Theorem handleUpdateRecipeImage_stale_plan :
  (forall a plan id0 img s,
      planHeap s !! a = Some plan ->
      (patchPlan id0 img plan).2 = true ->
      currentPlan (handleUpdateRecipeImage (Some a) id0 img s)
      = Some (patchDay id0 img <$> plan))
  /\ currentPlan regeneratedSession
     = Some {[ "Monday" :=
                 mkDayPlan
                   (Some (mkRecipe "b" "Salad" "" LUNCH FISH 10 1 [] [] None))
                   None ]}
  /\ currentPlan (handleUpdateRecipeImage (Some 0%nat) "a" "img" regeneratedSession)
     = Some {[ "Monday" :=
                 mkDayPlan
                   (Some (mkRecipe "a" "Soup" "" LUNCH BEEF 20 2 [] []
                            (Some "img")))
                   None ]}
  /\ currentPlan (handleUpdateRecipeImage (Some 0%nat) "a" "img" regeneratedSession)
     <> currentPlan regeneratedSession.
Proof.
  assert (G : forall a plan id0 img s,
             planHeap s !! a = Some plan ->
             (patchPlan id0 img plan).2 = true ->
             currentPlan (handleUpdateRecipeImage (Some a) id0 img s)
             = Some (patchDay id0 img <$> plan)).
  { intros a plan id0 img s Hp Hc. unfold currentPlan.
    rewrite handler_current, handler_heap, Hp, Hc. apply lookup_insert_eq. }
  split; [exact G|].
  assert (E0 : currentPlan regeneratedSession
               = Some {[ "Monday" :=
                           mkDayPlan
                             (Some (mkRecipe "b" "Salad" "" LUNCH FISH 10 1 [] [] None))
                             None ]}).
  { unfold currentPlan, regeneratedSession. cbn [weeklyPlan planHeap].
    rewrite lookup_insert_ne by discriminate. apply lookup_singleton_eq. }
  assert (E1 : currentPlan
                 (handleUpdateRecipeImage (Some 0%nat) "a" "img" regeneratedSession)
               = Some {[ "Monday" :=
                           mkDayPlan
                             (Some (mkRecipe "a" "Soup" "" LUNCH BEEF 20 2 [] []
                                      (Some "img")))
                             None ]}).
  { rewrite (G 0%nat
               {[ "Monday" :=
                    mkDayPlan
                      (Some (mkRecipe "a" "Soup" "" LUNCH BEEF 20 2 [] [] None))
                      None ]}).
    - now rewrite map_fmap_singleton.
    - apply lookup_insert_eq.
    - unfold patchPlan. cbn [snd]. rewrite map_to_list_singleton. reflexivity. }
  split; [exact E0|]. split; [exact E1|].
  rewrite E0, E1. intros H. discriminate H.
Qed.

End ImageClaims.

(* ===================================================================== *)
(** * The shopping-list merge engine *)
(* ===================================================================== *)

Module ShoppingFacts.
Import Shopping.

Lemma sameKey_iff s n it : sameKey s n it = true <-> key it = (s, n).
Proof.
  unfold sameKey, key. rewrite andb_true_iff, !String.eqb_eq.
  split; [intros [-> ->]; reflexivity|intros [= -> ->]; easy].
Qed.

Lemma sameKey_mergeInto s n c it : sameKey s n (mergeInto c it) = sameKey s n it.
Proof. reflexivity. Qed.

Lemma sameKey_newItem s n id0 c : sameKey s n (newItem id0 s n c) = true.
Proof. unfold sameKey. simpl. now rewrite !String.eqb_refl. Qed.

Lemma sameKey_true_eq s n s' n' it :
  sameKey s n it = true -> sameKey s' n' it = true -> (s', n') = (s, n).
Proof. rewrite !sameKey_iff. congruence. Qed.

(** ** One step of the [forEach] *)

Lemma findIndex_alter s n id0 c l :
  match findIndex (sameKey s n) l with
  | Some i => alter (mergeInto c) i l
  | None => l ++ [newItem id0 s n c]
  end = mergeContribution id0 s n c l.
Proof.
  induction l as [|it t IH]; [reflexivity|]. cbn [findIndex mergeContribution].
  destruct (sameKey s n it); [reflexivity|].
  destruct (findIndex (sameKey s n) t) as [i|]; cbn [fmap option_fmap option_map];
    rewrite <- IH; reflexivity.
Qed.

Lemma findIndex_existsb {A : Type} (p : A -> bool) (l : list A) :
  existsb p l = match findIndex p l with Some _ => true | None => false end.
Proof.
  induction l as [|x t IH]; [reflexivity|]. cbn [findIndex existsb].
  destruct (p x); [reflexivity|]. rewrite IH.
  now destruct (findIndex p t).
Qed.

Lemma addIngredient_merge rand recipe l d ing :
  addIngredient rand recipe (l, d) ing
  = (mergeContribution (rand d) (storeOrAny (ing_store ing))
       (cleanIngredientText (item ing)) (contributionOf recipe ing) l,
     if existsb (sameKey (storeOrAny (ing_store ing))
                   (cleanIngredientText (item ing))) l
     then d else S d).
Proof.
  unfold addIngredient.
  rewrite <- (findIndex_alter _ _ (rand d)), findIndex_existsb.
  now destruct (findIndex _ l).
Qed.





(** ** The item of a key across one step *)

Lemma find_mergeContribution_same id0 s n c l :
  List.find (sameKey s n) (mergeContribution id0 s n c l)
  = Some (match List.find (sameKey s n) l with
          | Some it => mergeInto c it
          | None => newItem id0 s n c
          end).
Proof.
  induction l as [|it t IH]; cbn [mergeContribution List.find].
  - now rewrite sameKey_newItem.
  - destruct (sameKey s n it) eqn:E; cbn [List.find].
    + now rewrite sameKey_mergeInto, E.
    + now rewrite E.
Qed.

Lemma find_mergeContribution_other id0 s n s' n' c l :
  (s', n') <> (s, n) ->
  List.find (sameKey s' n') (mergeContribution id0 s n c l)
  = List.find (sameKey s' n') l.
Proof.
  intros Hne. induction l as [|it t IH]; cbn [mergeContribution List.find].
  - destruct (sameKey s' n' (newItem id0 s n c)) eqn:E; [|reflexivity].
    exfalso. apply Hne. apply sameKey_iff in E. now inversion E.
  - destruct (sameKey s n it) eqn:E; cbn [List.find].
    + rewrite sameKey_mergeInto.
      destruct (sameKey s' n' it) eqn:E'; [|reflexivity].
      exfalso. apply Hne. eapply sameKey_true_eq; eassumption.
    + now rewrite IH.
Qed.

Lemma keys_mergeContribution id0 s n c l :
  map key (mergeContribution id0 s n c l)
  = if existsb (sameKey s n) l then map key l else map key l ++ [(s, n)].
Proof.
  induction l as [|it t IH]; [reflexivity|].
  cbn [mergeContribution existsb]. destruct (sameKey s n it); [reflexivity|].
  cbn [orb map]. rewrite IH. now destruct (existsb (sameKey s n) t).
Qed.

Lemma NoDup_mergeContribution id0 s n c l :
  NoDup (map key l) -> NoDup (map key (mergeContribution id0 s n c l)).
Proof.
  intros H. rewrite keys_mergeContribution.
  destruct (existsb (sameKey s n) l) eqn:E; [exact H|].
  apply NoDup_app. split; [exact H|]. split; [|apply NoDup_singleton].
  intros k Hk ->%list_elem_of_singleton.
  apply list_elem_of_fmap in Hk as (it & Hkey & Hin).
  assert (existsb (sameKey s n) l = true); [|congruence].
  apply existsb_exists. exists it. split; [now apply list_elem_of_In|].
  now apply sameKey_iff.
Qed.

(** ** The whole [forEach] *)

Lemma keyContribs_step rand recipe s n l d ing :
  keyContribs s n (addIngredient rand recipe (l, d) ing).1
  = keyContribs s n l
    ++ (if ingredientHasKey s n ing then [contributionOf recipe ing] else []).
Proof.
  rewrite addIngredient_merge. cbn [fst]. unfold keyContribs.
  destruct (ingredientHasKey s n ing) eqn:E.
  - unfold ingredientHasKey in E. apply andb_true_iff in E as [E1 E2].
    apply String.eqb_eq in E1, E2. rewrite E1, E2.
    rewrite find_mergeContribution_same.
    now destruct (List.find (sameKey s n) l).
  - rewrite find_mergeContribution_other, app_nil_r; [reflexivity|].
    intros [= E1 E2]. unfold ingredientHasKey in E.
    now rewrite <- E1, <- E2, !String.eqb_refl in E.
Qed.

Lemma keyContribs_fold rand recipe s n ings : forall l d,
  keyContribs s n (fold_left (addIngredient rand recipe) ings (l, d)).1
  = keyContribs s n l
    ++ map (contributionOf recipe) (List.filter (ingredientHasKey s n) ings).
Proof.
  induction ings as [|ing t IH]; intros l d; cbn [fold_left List.filter map].
  - now rewrite app_nil_r.
  - pose proof (keyContribs_step rand recipe s n l d ing) as Hstep.
    destruct (addIngredient rand recipe (l, d) ing) as [l' d'].
    rewrite IH. cbn [fst] in Hstep. rewrite Hstep.
    destruct (ingredientHasKey s n ing); cbn [map];
      now rewrite <- app_assoc.
Qed.

Lemma keyContribs_addRecipe rand recipe s n l :
  keyContribs s n (addRecipe rand recipe l)
  = keyContribs s n l ++ contribsFor s n recipe.
Proof. apply keyContribs_fold. Qed.

Lemma NoDup_fold rand recipe ings : forall l d,
  NoDup (map key l) ->
  NoDup (map key (fold_left (addIngredient rand recipe) ings (l, d)).1).
Proof.
  induction ings as [|ing t IH]; intros l d H; cbn [fold_left]; [exact H|].
  rewrite addIngredient_merge. apply IH, NoDup_mergeContribution, H.
Qed.



Lemma contribution_in_contribsFor recipe ing :
  ing ∈ ingredients recipe ->
  contributionOf recipe ing
  ∈ contribsFor (storeOrAny (ing_store ing)) (cleanIngredientText (item ing)) recipe.
Proof.
  intros Hin. unfold contribsFor. apply list_elem_of_fmap. exists ing.
  split; [reflexivity|]. apply list_elem_of_In, filter_In.
  split; [now apply list_elem_of_In|].
  unfold ingredientHasKey. now rewrite !String.eqb_refl.
Qed.

Lemma toggle_adds shoppingList rand recipe :
  isRecipeInList shoppingList (title recipe) = false ->
  toggleShoppingList shoppingList rand recipe = addRecipe rand recipe.
Proof. unfold toggleShoppingList. now intros ->. Qed.

Lemma toggle_removes shoppingList rand recipe :
  isRecipeInList shoppingList (title recipe) = true ->
  toggleShoppingList shoppingList rand recipe = removeRecipe (title recipe).
Proof. unfold toggleShoppingList. now intros ->. Qed.

(** ** Retraction *)

Lemma removeRecipe_app t l1 l2 :
  removeRecipe t (l1 ++ l2) = removeRecipe t l1 ++ removeRecipe t l2.
Proof. unfold removeRecipe. now rewrite map_app, List.filter_app. Qed.

Lemma strip_nonempty t it :
  (0 <? length (contributions (stripRecipe t it)))%nat = true
  <-> Exists (fun c => recipeTitle c <> t) (contributions it).
Proof.
  unfold stripRecipe. cbn [contributions withContributions].
  induction (contributions it) as [|c cs IH]; cbn [List.filter].
  - split; [discriminate|]. intros H. inversion H.
  - destruct (String.eqb_spec (recipeTitle c) t) as [E|E]; cbn [negb].
    + rewrite IH. split; [now right|]. intros H. inversion H; subst; [contradiction|assumption].
    + split; [now left|reflexivity].
Qed.

Lemma removeRecipe_cons t it l :
  removeRecipe t (it :: l)
  = if decide (Exists (fun c => recipeTitle c <> t) (contributions it))
    then stripRecipe t it :: removeRecipe t l
    else removeRecipe t l.
Proof.
  unfold removeRecipe. cbn [map List.filter].
  destruct (decide _) as [H|H].
  - apply strip_nonempty in H. now rewrite H.
  - destruct (0 <? _)%nat eqn:E; [|reflexivity].
    apply strip_nonempty in E. contradiction.
Qed.



End ShoppingFacts.

Section ShoppingClaims.
Import Shopping ShoppingFacts.



(** C2.  Removing the recipe titled T drops from every item the
    contributions titled T and then drops the items left with none: the
    result is, in order, the items that had some contribution with another
    title, each with its id, name, store and checked flag and with its
    remaining contributions.  No contribution titled T remains, an item
    whose contributions all carried T disappears, and only the title counts:
    two recipe records with the same title retract the same contributions,
    whatever their ids. *)
Theorem removeRecipe_spec (recipeTitle0 : string) :
  (forall prev,
      removeRecipe recipeTitle0 prev
      = stripRecipe recipeTitle0
          <$> filter (fun it => Exists (fun c => recipeTitle c <> recipeTitle0)
                                       (contributions it)) prev)
  /\ (forall it,
        item_id (stripRecipe recipeTitle0 it) = item_id it
        /\ name (stripRecipe recipeTitle0 it) = name it
        /\ store (stripRecipe recipeTitle0 it) = store it
        /\ checked (stripRecipe recipeTitle0 it) = checked it
        /\ contributions (stripRecipe recipeTitle0 it)
           = filter (fun c => recipeTitle c <> recipeTitle0) (contributions it))
  /\ (forall prev it c,
        it ∈ removeRecipe recipeTitle0 prev ->
        c ∈ contributions it -> recipeTitle c <> recipeTitle0)
  /\ (forall l1 it l2,
        Forall (fun c => recipeTitle c = recipeTitle0) (contributions it) ->
        removeRecipe recipeTitle0 (l1 ++ it :: l2)
        = removeRecipe recipeTitle0 (l1 ++ l2))
  /\ (forall l1 it l2,
        Exists (fun c => recipeTitle c <> recipeTitle0) (contributions it) ->
        removeRecipe recipeTitle0 (l1 ++ it :: l2)
        = removeRecipe recipeTitle0 l1
          ++ stripRecipe recipeTitle0 it :: removeRecipe recipeTitle0 l2)
  /\ (forall shoppingList rand1 rand2 recipe1 recipe2,
        title recipe1 = recipeTitle0 -> title recipe2 = recipeTitle0 ->
        isRecipeInList shoppingList recipeTitle0 = true ->
        toggleShoppingList shoppingList rand1 recipe1
        = removeRecipe recipeTitle0
        /\ toggleShoppingList shoppingList rand2 recipe2
           = removeRecipe recipeTitle0).
Proof.
  assert (Hstrip : forall it,
             contributions (stripRecipe recipeTitle0 it)
             = filter (fun c => recipeTitle c <> recipeTitle0) (contributions it)).
  { intros it. unfold stripRecipe. cbn [contributions withContributions].
    apply filter_bool_decide. intros c.
    rewrite negb_true_iff. destruct (String.eqb_spec (recipeTitle c) recipeTitle0);
      split; congruence. }
  assert (Heq : forall prev,
             removeRecipe recipeTitle0 prev
             = stripRecipe recipeTitle0
                 <$> filter (fun it => Exists (fun c => recipeTitle c <> recipeTitle0)
                                              (contributions it)) prev).
  { induction prev as [|it t IH]; [reflexivity|].
    rewrite removeRecipe_cons, filter_cons, IH. now destruct (decide _). }
  split; [exact Heq|]. split; [intros it; repeat split; apply Hstrip|].
  split.
  { intros prev it c Hit Hc. rewrite Heq in Hit.
    apply list_elem_of_fmap in Hit as (it0 & -> & _).
    rewrite Hstrip in Hc. now apply list_elem_of_filter in Hc as [Hc _]. }
  split.
  { intros l1 it l2 Hall. rewrite !removeRecipe_app, removeRecipe_cons.
    destruct (decide _) as [Hex|_]; [|reflexivity].
    exfalso. apply Exists_exists in Hex as (c & Hc & Hne).
    rewrite Forall_forall in Hall. now apply Hne, Hall. }
  split.
  { intros l1 it l2 Hex. rewrite removeRecipe_app, removeRecipe_cons.
    now destruct (decide _). }
  intros snap rand1 rand2 r1 r2 <- E2 Hin.
  split; [now apply toggle_removes|].
  rewrite <- E2 in Hin |- *. now apply toggle_removes.
Qed.

(** C8.  The add logic does not check membership: run twice for the same
    recipe it appends the recipe's contributions twice, so that for every
    key the item of that key ends up with what it held before followed by
    two copies of the recipe's contributions to that key.  Two invocations
    of [toggleShoppingList] made from the same render (whose captured list
    does not contain the recipe) both take the add branch; e.g. from the
    empty list a one-ingredient recipe gives one item holding its
    contribution twice. *)
Theorem addRecipe_twice_duplicates (rand1 rand2 : nat -> string)
    (recipe : Recipe) (prev : list ShoppingListItem) :
  (forall store0 normName,
      keyContribs store0 normName
        (addRecipe rand2 recipe (addRecipe rand1 recipe prev))
      = keyContribs store0 normName prev
        ++ contribsFor store0 normName recipe
        ++ contribsFor store0 normName recipe)
  /\ (forall ing,
        ing ∈ ingredients recipe ->
        contributionOf recipe ing
        ∈ contribsFor (storeOrAny (ing_store ing))
                      (cleanIngredientText (item ing)) recipe)
  /\ (forall shoppingList,
        isRecipeInList shoppingList (title recipe) = false ->
        toggleShoppingList shoppingList rand2 recipe
          (toggleShoppingList shoppingList rand1 recipe prev)
        = addRecipe rand2 recipe (addRecipe rand1 recipe prev))
  /\ (let salad :=
        mkRecipe "r1" "Salad" "" LUNCH VEGETARIAN 5 1
          [mkIngredient "2 Tomatoes" "Aldi" (Some "$3.50")] [] None in
      toggleShoppingList [] rand2 salad (toggleShoppingList [] rand1 salad [])
      = [ {| item_id := rand1 0%nat; name := "tomatoe"; store := "Aldi";
             checked := false;
             contributions :=
               [ mkContribution "r1" "Salad" "2 Tomatoes" (Some "$3.50");
                 mkContribution "r1" "Salad" "2 Tomatoes" (Some "$3.50") ] |} ]).
Proof.
  split.
  { intros s n. rewrite !keyContribs_addRecipe. now rewrite <- app_assoc. }
  split; [apply contribution_in_contribsFor|].
  split; [intros snap H; now rewrite !toggle_adds|].
  vm_compute. reflexivity.
Qed.

End ShoppingClaims.

(* ===================================================================== *)
(** * The price of a shopping-list line *)
(* ===================================================================== *)

Module PriceFacts.
Import JsString JsNumber Shopping Price StringFacts.

(** The loop computes the in-order sum of the numeric parts and records
    whether every price had one. *)
Lemma priceStep_fold prices : forall sum ok,
  fold_left priceStep prices (sum, ok)
  = (fold_left add (map parseFloat (omap numericPart prices)) sum,
     ok && bool_decide (allParse prices)).
Proof.
  induction prices as [|p t IH]; intros sum ok.
  - cbn. now rewrite andb_true_r.
  - cbn [fold_left omap list_omap].
    assert (Hdec : bool_decide (allParse (p :: t))
                   = bool_decide (is_Some (numericPart p))
                     && bool_decide (allParse t)).
    { assert (Hiff : allParse (p :: t) <-> is_Some (numericPart p) /\ allParse t)
        by apply (Forall_cons (fun q => is_Some (numericPart q))).
      rewrite (bool_decide_ext _ _ Hiff). apply bool_decide_and. }
    rewrite Hdec. unfold priceStep at 2.
    destruct (numericPart p) as [m|]; rewrite IH; cbn [map fold_left].
    * rewrite (bool_decide_eq_true_2 (is_Some (Some m))) by eauto. reflexivity.
    * rewrite (bool_decide_eq_false_2 (is_Some None))
        by (intros [x Hx]; discriminate).
      now rewrite !andb_false_l, andb_false_r.
Qed.

Lemma display_many it p q rest :
  pricesOf it = p :: q :: rest ->
  getItemPriceDisplay it
  = if bool_decide (allParse (pricesOf it)) && isPositive (priceSum (pricesOf it))
    then Some ("$" ++ toFixed2 (priceSum (pricesOf it)))%string
    else Some (join " + " (pricesOf it)).
Proof.
  intros E. unfold getItemPriceDisplay. rewrite E.
  rewrite priceStep_fold. cbn [andb]. reflexivity.
Qed.

Lemma uint_digits u :
  Forall (fun c => isDigit c = true) (chars (NilEmpty.string_of_uint u)).
Proof.
  induction u; cbn; constructor; (reflexivity || exact IHu).
Qed.

Lemma decimal_digits n :
  chars (decimal n) <> []
  /\ Forall (fun c => isDigit c = true) (chars (decimal n)).
Proof.
  unfold decimal, NilZero.string_of_uint.
  destruct (N.to_uint (Z.to_N n)) as [|u|u|u|u|u|u|u|u|u|u] eqn:E;
    (split; [discriminate|]);
    try (rewrite <- E; apply uint_digits).
  repeat constructor.
Qed.

(** [fixed2] writes digits, a point and two digits. *)
Lemma fixed2_twoDecimals n : twoDecimals (fixed2 n).
Proof.
  unfold twoDecimals, fixed2. rewrite chars_str.
  destruct (decimal_digits n) as [_ Hd].
  set (ds := repeat "0"%char (3 - length (chars (decimal n)))
             ++ chars (decimal n)).
  assert (Hlen : 3 <= length ds).
  { unfold ds. rewrite length_app, repeat_length. lia. }
  assert (Hall : Forall (fun c => isDigit c = true) ds).
  { unfold ds. apply Forall_app. split; [|exact Hd].
    apply Forall_forall. intros c Hc.
    apply list_elem_of_In, repeat_spec in Hc. now subst c. }
  assert (Hdrop : length (drop (length ds - 2) ds) = 2%nat)
    by (rewrite length_drop; lia).
  destruct (drop (length ds - 2) ds) as [|d1 [|d2 [|d3 rest]]] eqn:E;
    try discriminate Hdrop.
  exists (take (length ds - 2) ds), d1, d2.
  split; [reflexivity|]. split.
  - intros Hnil. apply (f_equal length) in Hnil.
    rewrite length_take in Hnil. cbn in Hnil. lia.
  - change [d1; d2] with ([d1; d2] : list ascii).
    rewrite <- E, take_drop. exact Hall.
Qed.

(** The prices a line shows are the present, non-empty prices of its
    contributions, in order. *)
Lemma pricesOf_ignores it l1 c l2 :
  contributions it = l1 ++ c :: l2 ->
  price c = None \/ price c = Some ""%string ->
  pricesOf it = pricesOf (withContributions (l1 ++ l2) it).
Proof.
  intros E Hc. unfold pricesOf. cbn [withContributions contributions].
  rewrite E, !omap_app. f_equal. cbn [omap list_omap].
  now destruct Hc as [-> | ->].
Qed.

Lemma pricesOf_all it : forall ps,
  map price (contributions it) = map Some ps ->
  Forall (fun p => p <> ""%string) ps ->
  pricesOf it = ps.
Proof.
  unfold pricesOf. induction (contributions it) as [|c cs IH]; intros ps E Hne.
  - now destruct ps.
  - destruct ps as [|p ps]; [discriminate|]. cbn in E. injection E as Ep Ecs.
    apply Forall_cons in Hne as [Hp Hps].
    cbn [omap list_omap]. rewrite Ep.
    destruct (String.eqb_spec p ""); [contradiction|]. cbn.
    f_equal. now apply IH.
Qed.

End PriceFacts.

Section PriceClaims.
Import JsString JsNumber Price PriceFacts.

(** C7 (counterexample).  A line with the single price "$3" parses cleanly,
    so the specification's wording asks for the sum with two decimals,
    "$3.00"; the code shows the raw string "$3". *)
Lemma getItemPriceDisplay_single_refuted :
  getItemPriceDisplay (priced ["$3"]) <> Some (specPriceDisplay (priced ["$3"])).
Proof. vm_compute. discriminate. Qed.

(** C7 (amended).  Contributions without a price (or with an empty one) are
    ignored: dropping one changes neither the prices nor the display, and
    when every contribution has a non-empty price the prices are exactly
    those, in order.  With no price left there is no display; with exactly
    one the display is that raw string; with two or more it is "$" followed
    by [toFixed(2)] of the in-order sum of the first numeric substring of
    each price string when every price string has a numeric substring and
    the sum is positive, and the raw strings joined by " + " otherwise.
    [toFixed(2)] writes the sum rounded to hundredths as digits, a point and
    two digits as long as the sum is below 10^21; from 10^21 on it writes
    the shortest exponent notation ("$1e+21"), and "$Infinity" when the sum
    overflows.  Prices "$3.50" and "$1.25" display "$4.75"; "market price"
    next to "$3.50" displays "market price + $3.50". *)
Theorem getItemPriceDisplay_spec (it : ShoppingListItem) :
  (pricesOf it = [] -> getItemPriceDisplay it = None)
  /\ (forall p, pricesOf it = [p] -> getItemPriceDisplay it = Some p)
  /\ (2 <= length (pricesOf it) ->
      allParse (pricesOf it) ->
      isPositive (priceSum (pricesOf it)) = true ->
      getItemPriceDisplay it
      = Some ("$" ++ toFixed2 (priceSum (pricesOf it)))%string)
  /\ (2 <= length (pricesOf it) ->
      ~ allParse (pricesOf it) \/ isPositive (priceSum (pricesOf it)) = false ->
      getItemPriceDisplay it = Some (join " + " (pricesOf it)))
  /\ getItemPriceDisplay (priced ["$3.50"; "$1.25"]) = Some "$4.75"
  /\ getItemPriceDisplay (priced ["market price"; "$3.50"])
     = Some "market price + $3.50"
  /\ (forall m e,
        2 <= length (pricesOf it) ->
        allParse (pricesOf it) ->
        priceSum (pricesOf it) = S754_finite false m e ->
        below1e21 m e ->
        getItemPriceDisplay it = Some ("$" ++ fixed2 (hundredths m e))%string
        /\ twoDecimals (fixed2 (hundredths m e)))
  /\ (forall m e,
        2 <= length (pricesOf it) ->
        allParse (pricesOf it) ->
        priceSum (pricesOf it) = S754_finite false m e ->
        (0 <= e)%Z ->
        (10 ^ 21 <= integerValue m e)%Z ->
        getItemPriceDisplay it
        = Some ("$" ++ toStringLarge (S754_finite false m e)
                                     (integerValue m e))%string)
  /\ (2 <= length (pricesOf it) ->
      allParse (pricesOf it) ->
      priceSum (pricesOf it) = S754_infinity false ->
      getItemPriceDisplay it = Some "$Infinity")
  /\ getItemPriceDisplay (priced ["999999999999999900000"; "0.5"])
     = Some "$999999999999999868928.00"
  /\ getItemPriceDisplay (priced ["1000000000000000000000"; "1"])
     = Some "$1e+21"
  /\ getItemPriceDisplay (priced ["123456789012345678901234"; "1"])
     = Some "$1.2345678901234569e+23"
  /\ getItemPriceDisplay (priced [str (repeat "9"%char 310); "1"])
     = Some "$Infinity"
  /\ (forall l1 c l2,
        contributions it = l1 ++ c :: l2 ->
        price c = None \/ price c = Some ""%string ->
        pricesOf it = pricesOf (Shopping.withContributions (l1 ++ l2) it)
        /\ getItemPriceDisplay it
           = getItemPriceDisplay (Shopping.withContributions (l1 ++ l2) it))
  /\ (forall ps,
        map price (contributions it) = map Some ps ->
        Forall (fun p => p <> ""%string) ps ->
        pricesOf it = ps)
  /\ pricesOf partlyPriced = ["$3.50"; "$1.25"]
  /\ getItemPriceDisplay partlyPriced = Some "$4.75"
  /\ getItemPriceDisplay
       (mkItem "i1" "tomato" "Any" false
          [ mkContribution "r1" "Salad" "2 Tomatoes" None;
            mkContribution "r2" "Soup" "tomato" (Some "") ])
     = None
  /\ getItemPriceDisplay
       (mkItem "i1" "tomato" "Any" false
          [ mkContribution "r2" "Soup" "tomato" (Some "");
            mkContribution "r1" "Salad" "2 Tomatoes" (Some "$3") ])
     = Some "$3".
Proof.
  assert (Hmany : forall x,
             2 <= length (pricesOf it) ->
             allParse (pricesOf it) ->
             priceSum (pricesOf it) = x ->
             isPositive x = true ->
             getItemPriceDisplay it = Some ("$" ++ toFixed2 x)%string).
  { intros x Hlen Hall Hx Hpos.
    destruct (pricesOf it) as [|p [|q rest]] eqn:E; [simpl in Hlen; lia..|].
    rewrite (display_many it p q rest E), E.
    rewrite bool_decide_eq_true_2 by exact Hall. now rewrite Hx, Hpos. }
  split; [intros E; unfold getItemPriceDisplay; now rewrite E|].
  split; [intros p E; unfold getItemPriceDisplay; now rewrite E|].
  split; [|split; [|split; [vm_compute; reflexivity|]]].
  3:{ split; [vm_compute; reflexivity|].
      split.
      { intros m e Hlen Hall Hx Hlt. split; [|apply fixed2_twoDecimals].
        rewrite (Hmany _ Hlen Hall Hx eq_refl). unfold toFixed2.
        replace ((0 <=? e)%Z && (10 ^ 21 <=? integerValue m e)%Z) with false;
          [reflexivity|].
        symmetry. unfold below1e21, integerValue in *.
        destruct e as [|q|q]; cbn [Z.leb Z.compare andb]; try reflexivity;
          apply Z.leb_gt; exact Hlt. }
      split.
      { intros m e Hlen Hall Hx He Hbig.
        rewrite (Hmany _ Hlen Hall Hx eq_refl). unfold toFixed2.
        apply Z.leb_le in He, Hbig. now rewrite He, Hbig. }
      split.
      { intros Hlen Hall Hx. now rewrite (Hmany _ Hlen Hall Hx eq_refl). }
      do 4 (split; [vm_compute; reflexivity|]).
      split.
      { intros l1 c l2 E Hc.
        assert (Hp := pricesOf_ignores it l1 c l2 E Hc).
        split; [exact Hp|]. unfold getItemPriceDisplay. now rewrite Hp. }
      split; [apply pricesOf_all|].
      repeat split; vm_compute; reflexivity. }
  - intros Hlen Hall Hpos.
    destruct (pricesOf it) as [|p [|q rest]] eqn:E; [simpl in Hlen; lia..|].
    rewrite (display_many it p q rest E), E.
    rewrite bool_decide_eq_true_2 by exact Hall. now rewrite Hpos.
  - intros Hlen Hbad.
    destruct (pricesOf it) as [|p [|q rest]] eqn:E; [simpl in Hlen; lia..|].
    rewrite (display_many it p q rest E), E.
    destruct Hbad as [Hbad|Hbad].
    + now rewrite bool_decide_eq_false_2 by exact Hbad.
    + now rewrite Hbad, andb_false_r.
Qed.

Lemma getItemPriceDisplay_spec_witness :
  getItemPriceDisplay partlyPriced
  = getItemPriceDisplay
      (Shopping.withContributions
         [ mkContribution "r2" "Soup" "tomato" (Some "");
           mkContribution "r3" "Stew" "Tomatoes" (Some "$3.50");
           mkContribution "r4" "Pie" "Tomato" None;
           mkContribution "r5" "Dip" "Tomato" (Some "$1.25") ]
         partlyPriced).
Proof.
  destruct (getItemPriceDisplay_spec partlyPriced)
    as (_ & _ & _ & _ & _ & _ & _ & _ & _ & _ & _ & _ & _ & H & _).
  exact (proj2 (H [] (mkContribution "r1" "Salad" "2 Tomatoes" None)
                  [ mkContribution "r2" "Soup" "tomato" (Some "");
                    mkContribution "r3" "Stew" "Tomatoes" (Some "$3.50");
                    mkContribution "r4" "Pie" "Tomato" None;
                    mkContribution "r5" "Dip" "Tomato" (Some "$1.25") ]
                  eq_refl (or_introl eq_refl))).
Defined.

End PriceClaims.

(* ===================================================================== *)
(** * Further properties of the normaliser *)
(* ===================================================================== *)

Section NormalizerShape.
Import JsString Regex Normalizer StringFacts NormalizerFacts.

Lemma toLowerChar_idem c : toLowerChar (toLowerChar c) = toLowerChar c.
Proof. ascii_cases c; vm_compute; reflexivity. Qed.

Lemma toLowerCase_length s : length (toLowerCase s) = length s.
Proof. apply length_map. Qed.

Lemma cleanChars_length s : length (cleanChars s) <= length s.
Proof.
  unfold cleanChars.
  etransitivity; [apply singularize_length|].
  etransitivity; [apply trim_length|].
  etransitivity; [apply replaceAnchored_length|].
  etransitivity; [apply trim_length|].
  etransitivity; [apply replaceAnchored_length|].
  etransitivity; [apply replaceAllFrom_length|].
  etransitivity; [apply replaceAllFrom_length|].
  now rewrite toLowerCase_length.
Qed.

Lemma removelast_shorter (s : list ascii) : s <> [] -> removelast s <> s.
Proof.
  intros Hne E. apply (f_equal (@length ascii)) in E.
  destruct (exists_last Hne) as (l & a & ->).
  rewrite removelast_last, length_app in E. simpl in E. lia.
Qed.

Lemma quantity_lower c : isQuantityChar c = true -> toLowerChar c = c.
Proof. ascii_cases c; vm_compute; intros H; try reflexivity; discriminate H. Qed.

Lemma quantity_not_paren c : isQuantityChar c = true -> Ascii.eqb "(" c = false.
Proof. ascii_cases c; vm_compute; intros H; try reflexivity; discriminate H. Qed.

Lemma Forall_filter_bool (P : ascii -> Prop) (f : ascii -> bool) s :
  Forall P s -> Forall P (List.filter f s).
Proof.
  induction 1 as [|c t Hc _ IH]; simpl; [constructor|].
  destruct (f c); [now constructor|exact IH].
Qed.

Lemma replaceAnchored_plus_all p s :
  Forall (fun c => p c = true) s -> replaceAnchored (Plus p) s = [].
Proof.
  intros Hall. pose proof (replaceAnchored_plus_head p s) as Hh.
  assert (Hf : Forall (fun c => p c = true) (replaceAnchored (Plus p) s))
    by now apply Forall_replaceAnchored.
  destruct (replaceAnchored (Plus p) s) as [|c t]; [reflexivity|].
  simpl in Hh. apply Forall_cons in Hf as [Hc _]. congruence.
Qed.

(** X1.  Every code unit of a key is a lower-case letter a-z, a digit or
    white space: no capitals, punctuation or parentheses survive. *)
Theorem cleanIngredientText_alphabet (x : string) :
  Forall (fun c => isLowerAZ c || isDigit c || isSpace c = true)
         (chars (cleanIngredientText x)).
Proof.
  unfold cleanIngredientText. rewrite chars_str.
  apply (can_kept _ (cleanChars_canonical (chars x))).
Qed.

(** X2.  A key never starts with a digit or with white space, and a key of
    more than three code units never ends in a single "s" (it ends in "ss"
    whenever it ends in "s"). *)
Theorem cleanIngredientText_ends (x : string) :
  headIs isDigit (chars (cleanIngredientText x)) = false
  /\ headIs isSpace (chars (cleanIngredientText x)) = false
  /\ (3 < length (chars (cleanIngredientText x)) ->
      endsWith (chars "s") (chars (cleanIngredientText x)) = true ->
      endsWith (chars "ss") (chars (cleanIngredientText x)) = true).
Proof.
  unfold cleanIngredientText. rewrite chars_str.
  destruct (cleanChars_canonical (chars x)) as [_ Hh Hs].
  split; [|split].
  - destruct (cleanChars (chars x)) as [|c t]; [reflexivity|]. simpl in *.
    unfold isQuantityChar in Hh. now destruct (isDigit c).
  - now apply headIs_quantity_space.
  - intros Hlen He. destruct (endsWith (chars "ss") _) eqn:Hss; [reflexivity|].
    exfalso. unfold singularize in Hs.
    apply Nat.ltb_lt in Hlen. rewrite Hlen, He, Hss in Hs. cbn [andb negb] in Hs.
    apply (removelast_shorter (cleanChars (chars x))); [|exact Hs].
    intros E. rewrite E in Hlen. discriminate Hlen.
Qed.

(** X3.  Normalising never lengthens the text. *)
Theorem cleanIngredientText_length (x : string) :
  length (chars (cleanIngredientText x)) <= length (chars x).
Proof.
  unfold cleanIngredientText. rewrite chars_str. apply cleanChars_length.
Qed.

(** X4.  The key does not depend on letter case: lower-casing the text first
    gives the same key. *)
Theorem cleanIngredientText_case_insensitive (x : string) :
  cleanIngredientText (str (toLowerCase (chars x))) = cleanIngredientText x.
Proof.
  unfold cleanIngredientText. rewrite chars_str. f_equal.
  unfold cleanChars. f_equal. f_equal. f_equal. f_equal. f_equal. f_equal. f_equal.
  unfold toLowerCase. rewrite map_map. apply map_ext. apply toLowerChar_idem.
Qed.

(** X5.  A text made only of digits, ".", "/" and white space has the empty
    key. *)
Theorem cleanIngredientText_numeric_empty (x : string) :
  Forall (fun c => isQuantityChar c = true) (chars x) ->
  cleanIngredientText x = "".
Proof.
  intros Hall. unfold cleanIngredientText.
  replace (cleanChars (chars x)) with (@nil ascii); [reflexivity|].
  symmetry. unfold cleanChars.
  assert (H1 : toLowerCase (chars x) = chars x).
  { unfold toLowerCase. induction Hall as [|c t Hc _ IH]; simpl; [reflexivity|].
    now rewrite quantity_lower, IH. }
  assert (H2 : replaceAll parenRegex (chars x) = chars x).
  { apply replaceAll_id. eapply Forall_impl; [exact Hall|].
    intros c Hc t. unfold exec, parenRegex. cbn [matches].
    now rewrite (quantity_not_paren c Hc). }
  rewrite H1, H2. unfold specialRegex. rewrite replaceAll_class.
  set (w := List.filter _ (chars x)).
  assert (Hw : Forall (fun c => isQuantityChar c = true) w)
    by now apply Forall_filter_bool.
  unfold leadingNumberRegex.
  rewrite replaceAnchored_plus_all;
    [reflexivity|now apply Forall_trim, Forall_replaceAnchored].
Qed.

Lemma cleanIngredientText_numeric_empty_witness :
  cleanIngredientText "12 1/2 .5" = "".
Proof.
  apply cleanIngredientText_numeric_empty.
  vm_compute. repeat constructor.
Defined.

End NormalizerShape.

(* ===================================================================== *)
(** * Further properties of the cache and of the search path *)
(* ===================================================================== *)

Module CacheFacts.
Import Cache Search.

(** The candidates that [addToCache] appends. *)
Lemma addToCache_unfold newRecipes prev :
  addToCache newRecipes prev
  = prev ++ filter (fun r => title r ∉ map title prev) newRecipes.
Proof.
  unfold addToCache.
  assert (E : List.filter
                (fun r => negb (bool_decide
                   (title r ∈ (list_to_set (map title prev) : gset string))))
                newRecipes
              = filter (fun r => title r ∉ map title prev) newRecipes).
  { apply filter_bool_decide. intros r.
    rewrite negb_true_iff, bool_decide_eq_false, elem_of_list_to_set. tauto. }
  rewrite E. destruct (filter _ newRecipes); [now rewrite app_nil_r|reflexivity].
Qed.

Lemma mapSet_entries k v m kv :
  NoDup (map fst m) ->
  kv ∈ mapSet k v m ->
  kv = (k, v) \/ (kv.1 <> k /\ kv ∈ m).
Proof.
  induction m as [|[k0 v0] t IH]; cbn [mapSet map fst].
  - intros _ ->%list_elem_of_singleton. now left.
  - intros [Hk0 Ht]%NoDup_cons.
    destruct (String.eqb_spec k0 k) as [->|Hne].
    + intros [->|Hin]%elem_of_cons; [now left|]. right. split.
      * intros E. apply Hk0. rewrite <- E. apply list_elem_of_fmap. eauto.
      * now apply list_elem_of_further.
    + intros [->|Hin]%elem_of_cons.
      * right. split; [exact Hne|apply list_elem_of_here].
      * destruct (IH Ht Hin) as [->|[H1 H2]]; [now left|].
        right. split; [exact H1|now apply list_elem_of_further].
Qed.

Lemma mapSet_keys k v m :
  map fst (mapSet k v m)
  = if existsb (fun kv => String.eqb kv.1 k) m
    then map fst m else map fst m ++ [k].
Proof.
  induction m as [|[k0 v0] t IH]; [reflexivity|]. cbn [mapSet existsb fst].
  destruct (String.eqb_spec k0 k) as [->|Hne]; [reflexivity|].
  cbn [orb map fst]. rewrite IH. now destruct (existsb _ t).
Qed.

Lemma mapSet_NoDup k v m : NoDup (map fst m) -> NoDup (map fst (mapSet k v m)).
Proof.
  intros H. rewrite mapSet_keys. destruct (existsb _ m) eqn:E; [exact H|].
  apply NoDup_app. split; [exact H|]. split; [|apply NoDup_singleton].
  intros k' Hk' ->%list_elem_of_singleton.
  apply list_elem_of_fmap in Hk' as ([k0 v0] & Hk0 & Hin). simpl in Hk0. subst k0.
  assert (existsb (fun kv : string * Recipe => String.eqb kv.1 k) m = true);
    [|congruence].
  apply existsb_exists. exists (k, v0).
  split; [now apply list_elem_of_In|apply String.eqb_refl].
Qed.

Lemma mapSet_has_key k v m : k ∈ map fst (mapSet k v m).
Proof.
  rewrite mapSet_keys. destruct (existsb _ m) eqn:E.
  - apply existsb_exists in E as ([k0 v0] & Hin & Hk). simpl in Hk.
    apply String.eqb_eq in Hk. subst k0. apply list_elem_of_fmap.
    exists (k, v0). split; [reflexivity|now apply list_elem_of_In].
  - apply elem_of_app. right. apply list_elem_of_here.
Qed.

Lemma mapSet_keeps_keys k v m k' : k' ∈ map fst m -> k' ∈ map fst (mapSet k v m).
Proof.
  rewrite mapSet_keys. destruct (existsb _ m); [easy|].
  intros H. apply elem_of_app. now left.
Qed.

(** What the [Map] built from a list of recipes holds. *)
Record mapOf (l : list Recipe) (m : list (string * Recipe)) : Prop := mkMapOf {
  mo_nodup : NoDup (map fst m);
  mo_last : forall k v, (k, v) ∈ m ->
            title v = k
            /\ exists l1 l2, l = l1 ++ v :: l2 /\ k ∉ map title l2;
  mo_all : forall r, r ∈ l -> title r ∈ map fst m
}.

Lemma fold_mapSet l :
  mapOf l (fold_left (fun m r => mapSet (title r) r m) l []).
Proof.
  induction l as [|r l IH] using rev_ind.
  - split; [constructor|intros k v H; now apply not_elem_of_nil in H|
            intros r H; now apply not_elem_of_nil in H].
  - rewrite fold_left_app. cbn [fold_left].
    set (m := fold_left _ l []) in *. destruct IH as [Hnd Hlast Hall]. split.
    + now apply mapSet_NoDup.
    + intros k v Hin.
      destruct (mapSet_entries _ _ _ _ Hnd Hin) as [[= -> ->]|[Hne Hin']].
      * split; [reflexivity|]. exists l, []. split; [reflexivity|].
        apply not_elem_of_nil.
      * clear Hin. rename Hin' into Hin. simpl in Hne. destruct (Hlast k v Hin) as (Ht & l1 & l2 & -> & Hk).
        split; [exact Ht|]. exists l1, (l2 ++ [r]).
        split; [now rewrite <- app_assoc|].
        rewrite map_app. intros [H|H]%elem_of_app; [contradiction|].
        apply list_elem_of_singleton in H. congruence.
    + intros r' [Hin|Hin]%elem_of_app.
      * now apply mapSet_keeps_keys, Hall.
      * apply list_elem_of_singleton in Hin. subst r'. apply mapSet_has_key.
Qed.

Lemma uniqueByTitle_titles l :
  map title (uniqueByTitle l)
  = map fst (fold_left (fun m r => mapSet (title r) r m) l []).
Proof.
  unfold uniqueByTitle. destruct (fold_mapSet l) as [_ Hlast _].
  set (m := fold_left _ l []) in *. clearbody m.
  induction m as [|[k v] t IH]; [reflexivity|]. cbn [map fst snd].
  f_equal.
  - apply (Hlast k v), list_elem_of_here.
  - apply IH. intros k' v' Hin. apply Hlast. now apply list_elem_of_further.
Qed.

Lemma filter_none {A : Type} (P : A -> Prop) `{!forall x, Decision (P x)}
    (l : list A) :
  Forall (fun x => ~ P x) l -> filter P l = [].
Proof.
  induction 1 as [|x t Hx _ IH]; [reflexivity|].
  rewrite filter_cons. now destruct (decide (P x)).
Qed.

End CacheFacts.

Section CacheExtras.
Import Cache Search CacheFacts Images.

(** X6.  The cache is append-only: an insert leaves every entry at its index
    and appends, in batch order, exactly the candidates whose title is not
    among the titles cached before the call. *)
Theorem addToCache_append_only (newRecipes prev : list Recipe) :
  addToCache newRecipes prev
  = prev ++ filter (fun r => title r ∉ map title prev) newRecipes
  /\ prev `prefix_of` addToCache newRecipes prev
  /\ forall i r, prev !! i = Some r -> addToCache newRecipes prev !! i = Some r.
Proof.
  rewrite addToCache_unfold. split; [reflexivity|].
  split; [now apply prefix_app_r|].
  intros i r H. now apply lookup_app_l_Some.
Qed.

(** X7.  Inserting the same batch again changes nothing. *)
Theorem addToCache_idempotent (newRecipes prev : list Recipe) :
  addToCache newRecipes (addToCache newRecipes prev)
  = addToCache newRecipes prev.
Proof.
  rewrite (addToCache_unfold newRecipes (addToCache newRecipes prev)).
  rewrite filter_none; [apply app_nil_r|].
  apply Forall_forall. intros r Hr Hnot. apply Hnot.
  rewrite addToCache_unfold, map_app. apply elem_of_app.
  destruct (decide (title r ∈ map title prev)) as [Hin|Hout]; [now left|].
  right. apply list_elem_of_fmap. exists r. split; [reflexivity|].
  now apply list_elem_of_filter.
Qed.

(** X8.  After an insert the title of every candidate is in the cache, and
    every cached entry was cached before or is one of the candidates. *)
Theorem addToCache_covers (newRecipes prev : list Recipe) :
  (forall r, r ∈ newRecipes ->
             title r ∈ map title (addToCache newRecipes prev))
  /\ (forall r, r ∈ addToCache newRecipes prev -> r ∈ prev \/ r ∈ newRecipes).
Proof.
  rewrite addToCache_unfold. split.
  - intros r Hr. rewrite map_app. apply elem_of_app.
    destruct (decide (title r ∈ map title prev)) as [Hin|Hout]; [now left|].
    right. apply list_elem_of_fmap. exists r. split; [reflexivity|].
    now apply list_elem_of_filter.
  - intros r [H|H]%elem_of_app; [now left|].
    right. now apply list_elem_of_filter in H as [_ H].
Qed.

(** X9.  The recipes shown after a search have pairwise distinct titles and
    the same titles as the three fetched batches together; of several fetched
    recipes with one title the last one is shown.  Inserting them keeps the
    titles of the cache pairwise distinct. *)
Theorem searchResults_unique (batch1 batch2 batch3 : list Recipe) :
  NoDup (map title (searchResults batch1 batch2 batch3))
  /\ (forall t, t ∈ map title (searchResults batch1 batch2 batch3)
                <-> t ∈ map title (batch1 ++ batch2 ++ batch3))
  /\ (forall r, r ∈ searchResults batch1 batch2 batch3 ->
                exists l1 l2, batch1 ++ batch2 ++ batch3 = l1 ++ r :: l2
                              /\ title r ∉ map title l2)
  /\ (forall recipeCache,
        NoDup (map title recipeCache) ->
        NoDup (map title (cacheAfterSearch batch1 batch2 batch3 recipeCache))).
Proof.
  unfold cacheAfterSearch, searchResults.
  set (l := batch1 ++ batch2 ++ batch3).
  destruct (fold_mapSet l) as [Hnd Hlast Hall].
  assert (Hu : NoDup (map title (uniqueByTitle l)))
    by now rewrite uniqueByTitle_titles.
  split; [exact Hu|]. split; [|split].
  - intros t. rewrite uniqueByTitle_titles. split.
    + intros ([k v] & -> & Hin)%list_elem_of_fmap.
      destruct (Hlast k v Hin) as (Ht & l1 & l2 & E & _). simpl.
      rewrite <- Ht. apply list_elem_of_fmap. exists v. split; [reflexivity|].
      rewrite E. apply elem_of_app. right. apply list_elem_of_here.
    + intros (r & -> & Hr)%list_elem_of_fmap. now apply Hall.
  - intros r Hr. unfold uniqueByTitle in Hr.
    apply list_elem_of_fmap in Hr as ([k v] & -> & Hin).
    destruct (Hlast k v Hin) as (Ht & l1 & l2 & E & Hk). simpl.
    exists l1, l2. split; [exact E|congruence].
  - intros recipeCache Hc. now apply addToCache_NoDup.
Qed.

(** X10.  When "load more" is served from the cache, every recipe it
    appends is cached, admitted by the filter, and has a title that is not
    yet on screen, whatever order the random sort produced; the page has
    exactly nine recipes. *)
Theorem loadMore_from_cache (recipeCache recipes shuffled : list Recipe)
    (filters : FilterState) :
  shuffled ≡ₚ availableInCache recipeCache recipes filters ->
  cacheSufficient (availableInCache recipeCache recipes filters) = true ->
  length (servedPage shuffled) = 9
  /\ forall r, r ∈ servedPage shuffled ->
       r ∈ recipeCache /\ admits filters r /\ title r ∉ map title recipes.
Proof.
  intros Hperm Hsuf. unfold cacheSufficient in Hsuf. apply Nat.leb_le in Hsuf.
  rewrite <- Hperm in Hsuf. unfold servedPage. split.
  - rewrite length_take. lia.
  - intros r Hr. apply elem_of_take in Hr as (i & Hr & _).
    apply list_elem_of_lookup_2 in Hr. rewrite Hperm in Hr.
    unfold availableInCache, getCachedMatches in Hr.
    apply list_elem_of_In, filter_In in Hr as [Hr Ht].
    apply filter_In in Hr as [H1 H2].
    split; [now apply list_elem_of_In|]. split; [now apply cacheMatch_admits|].
    apply negb_true_iff, bool_decide_eq_false in Ht.
    intros Hin. apply Ht. now apply elem_of_list_to_set.
Qed.

Lemma loadMore_from_cache_witness :
  length (servedPage
            (replicate 9 (mkRecipe "a" "Soup" "" DINNER BEEF 20 2 [] [] None)))
  = 9
  /\ forall r,
       r ∈ servedPage
             (replicate 9 (mkRecipe "a" "Soup" "" DINNER BEEF 20 2 [] [] None)) ->
       r ∈ replicate 9 (mkRecipe "a" "Soup" "" DINNER BEEF 20 2 [] [] None)
       /\ admits (mkFilterState DINNER [ANY] 30 "Any" "Any") r
       /\ title r ∉ map title [mkRecipe "b" "Salad" "" DINNER FISH 10 1 [] [] None].
Proof.
  apply (loadMore_from_cache
           (replicate 9 (mkRecipe "a" "Soup" "" DINNER BEEF 20 2 [] [] None))
           [mkRecipe "b" "Salad" "" DINNER FISH 10 1 [] [] None]
           (replicate 9 (mkRecipe "a" "Soup" "" DINNER BEEF 20 2 [] [] None))
           (mkFilterState DINNER [ANY] 30 "Any" "Any")).
  - vm_compute. reflexivity.
  - vm_compute. reflexivity.
Defined.

(** X11.  The three difficulty bands split what the label "Any" admits: a
    recipe passes the filter with "Any" exactly when it passes with "Easy",
    "Medium" or "Hard", and it never passes with two of them. *)
Theorem difficulty_bands_partition (f : FilterState) (r : Recipe) :
  cacheMatch (withDifficulty "Any" f) r
  = cacheMatch (withDifficulty "Easy" f) r
    || cacheMatch (withDifficulty "Medium" f) r
    || cacheMatch (withDifficulty "Hard" f) r
  /\ cacheMatch (withDifficulty "Easy" f) r
     && cacheMatch (withDifficulty "Medium" f) r = false
  /\ cacheMatch (withDifficulty "Easy" f) r
     && cacheMatch (withDifficulty "Hard" f) r = false
  /\ cacheMatch (withDifficulty "Medium" f) r
     && cacheMatch (withDifficulty "Hard" f) r = false.
Proof.
  unfold cacheMatch, withDifficulty.
  cbn [f_mealType f_protein f_maxTime f_difficulty].
  generalize (bool_decide (mealType r = f_mealType f)).
  generalize (includes (f_protein f) ANY || includes (f_protein f) (protein r)).
  intros pm mm. cbn. destruct mm; cbn; [|easy]. destruct pm; cbn; [|easy].
  destruct (Z.gtb_spec (prepTimeMinutes r) (f_maxTime f)); [easy|].
  destruct (Z.gtb_spec (difficulty r) 2); destruct (Z.ltb_spec (difficulty r) 3);
    destruct (Z.gtb_spec (difficulty r) 3); destruct (Z.ltb_spec (difficulty r) 4);
    cbn; repeat split; try reflexivity; lia.
Qed.

(** X12.  Attaching an image does not change what matches: matching the
    patched cache gives the patched matches. *)
Theorem getCachedMatches_patchList (id0 img : string) (recipeCache : list Recipe)
    (currentFilters : FilterState) :
  getCachedMatches (patchList id0 img recipeCache) currentFilters
  = patchList id0 img (getCachedMatches recipeCache currentFilters).
Proof.
  unfold getCachedMatches, patchList.
  induction recipeCache as [|r t IH]; [reflexivity|]. cbn [map List.filter].
  assert (E : cacheMatch currentFilters
                (if String.eqb (id r) id0 then withImage img r else r)
              = cacheMatch currentFilters r)
    by now destruct (String.eqb (id r) id0).
  rewrite E. destruct (cacheMatch currentFilters r); cbn [map]; now rewrite IH.
Qed.

(** X13.  When the cache holds at least nine matches, the page served from it
    has exactly nine recipes, each of them cached and admitted by the filter,
    whatever order the random sort produced. *)
Theorem servedPage_from_cache (recipeCache shuffled : list Recipe)
    (filters : FilterState) :
  shuffled ≡ₚ getCachedMatches recipeCache filters ->
  cacheSufficient (getCachedMatches recipeCache filters) = true ->
  length (servedPage shuffled) = 9
  /\ forall r, r ∈ servedPage shuffled -> r ∈ recipeCache /\ admits filters r.
Proof.
  intros Hperm Hsuf. unfold cacheSufficient in Hsuf. apply Nat.leb_le in Hsuf.
  rewrite <- Hperm in Hsuf. unfold servedPage. split.
  - rewrite length_take. lia.
  - intros r Hr. apply elem_of_take in Hr as (i & Hr & _).
    apply list_elem_of_lookup_2 in Hr. rewrite Hperm in Hr.
    unfold getCachedMatches in Hr. apply list_elem_of_In, filter_In in Hr as [H1 H2].
    split; [now apply list_elem_of_In|now apply cacheMatch_admits].
Qed.

Lemma servedPage_from_cache_witness :
  length (servedPage
            (replicate 9 (mkRecipe "a" "Soup" "" DINNER BEEF 20 2 [] [] None)))
  = 9
  /\ forall r,
       r ∈ servedPage
             (replicate 9 (mkRecipe "a" "Soup" "" DINNER BEEF 20 2 [] [] None)) ->
       r ∈ replicate 9 (mkRecipe "a" "Soup" "" DINNER BEEF 20 2 [] [] None)
       /\ admits (mkFilterState DINNER [ANY] 30 "Any" "Any") r.
Proof.
  apply (servedPage_from_cache
           (replicate 9 (mkRecipe "a" "Soup" "" DINNER BEEF 20 2 [] [] None))
           (replicate 9 (mkRecipe "a" "Soup" "" DINNER BEEF 20 2 [] [] None))
           (mkFilterState DINNER [ANY] 30 "Any" "Any")).
  - reflexivity.
  - reflexivity.
Defined.

End CacheExtras.

(* ===================================================================== *)
(** * Further properties of the image fan-out and of the favourites *)
(* ===================================================================== *)

Module ImageMoreFacts.
Import Images ImagesAux ImageFacts.

Lemma patchSlot_untouched id0 img slot :
  slotHasId id0 slot = false -> patchSlot id0 img slot = slot.
Proof. unfold patchSlot. now intros ->. Qed.

Lemma patchOne_same id0 img1 img2 r :
  patchOne id0 img2 (patchOne id0 img1 r) = patchOne id0 img2 r.
Proof.
  unfold patchOne. destruct (String.eqb (id r) id0) eqn:E; cbn [id withImage].
  - now rewrite E.
  - now rewrite E.
Qed.

Lemma patchOne_comm id1 id2 img1 img2 r :
  id1 <> id2 ->
  patchOne id1 img1 (patchOne id2 img2 r) = patchOne id2 img2 (patchOne id1 img1 r).
Proof.
  intros Hne. unfold patchOne.
  destruct (String.eqb (id r) id1) eqn:E1;
    destruct (String.eqb (id r) id2) eqn:E2; cbn [id withImage];
    rewrite ?E1, ?E2; try reflexivity.
  apply String.eqb_eq in E1, E2. congruence.
Qed.

Lemma patchSlot_patchOne id0 img slot :
  patchSlot id0 img slot = patchOne id0 img <$> slot.
Proof.
  destruct slot as [r|]; [|reflexivity]. unfold patchSlot, patchOne. cbn.
  now destruct (String.eqb (id r) id0).
Qed.

Lemma patchDay_same id0 img1 img2 d :
  patchDay id0 img2 (patchDay id0 img1 d) = patchDay id0 img2 d.
Proof.
  unfold patchDay. cbn [lunch dinner]. rewrite !patchSlot_patchOne.
  f_equal; (destruct d as [[l|] [n|]]; cbn; now rewrite ?patchOne_same).
Qed.

Lemma patchDay_comm id1 id2 img1 img2 d :
  id1 <> id2 ->
  patchDay id1 img1 (patchDay id2 img2 d) = patchDay id2 img2 (patchDay id1 img1 d).
Proof.
  intros Hne. unfold patchDay. cbn [lunch dinner]. rewrite !patchSlot_patchOne.
  f_equal; (destruct d as [[l|] [n|]]; cbn;
            now rewrite ?(patchOne_comm id1 id2 img1 img2) by exact Hne).
Qed.

Lemma patchList_map id0 img l : patchList id0 img l = map (patchOne id0 img) l.
Proof. reflexivity. Qed.

Lemma patchList_same id0 img1 img2 l :
  patchList id0 img2 (patchList id0 img1 l) = patchList id0 img2 l.
Proof.
  rewrite !patchList_map, map_map. apply map_ext. intros r. apply patchOne_same.
Qed.

Lemma patchList_comm id1 id2 img1 img2 l :
  id1 <> id2 ->
  patchList id1 img1 (patchList id2 img2 l)
  = patchList id2 img2 (patchList id1 img1 l).
Proof.
  intros Hne. rewrite !patchList_map, !map_map. apply map_ext. intros r.
  now apply patchOne_comm.
Qed.

Lemma slotHasId_patchSlot id0 id1 img slot :
  slotHasId id0 (patchSlot id1 img slot) = slotHasId id0 slot.
Proof.
  destruct slot as [r|]; [|reflexivity]. unfold patchSlot. cbn.
  now destruct (String.eqb (id r) id1).
Qed.

(** Writing images does not change which slots hold an id, so the flag
    [planChanged] is the same before and after a patch. *)
Lemma planChanged_patched id0 img id1 img1 (plan : gmap string DayPlan) :
  (patchPlan id0 img (patchDay id1 img1 <$> plan)).2 = (patchPlan id0 img plan).2.
Proof.
  assert (H : forall p q : gmap string DayPlan,
             (forall day, option_Forall2
                            (fun d d' =>
                               slotHasId id0 (lunch d) = slotHasId id0 (lunch d')
                               /\ slotHasId id0 (dinner d) = slotHasId id0 (dinner d'))
                            (p !! day) (q !! day)) ->
             (patchPlan id0 img p).2 = false -> (patchPlan id0 img q).2 = false).
  { intros p q Hpq Hp. apply planChanged_false. intros day d' Hd'.
    specialize (Hpq day). rewrite Hd' in Hpq. inversion Hpq as [d ? [Hl Hn] Hd|].
    symmetry in Hd.
    destruct (proj1 (planChanged_false id0 img p) Hp day d Hd) as [H1 H2].
    split; congruence. }
  assert (Hrel : forall day,
             option_Forall2
               (fun d d' =>
                  slotHasId id0 (lunch d) = slotHasId id0 (lunch d')
                  /\ slotHasId id0 (dinner d) = slotHasId id0 (dinner d'))
               ((patchDay id1 img1 <$> plan) !! day) (plan !! day)).
  { intros day. rewrite lookup_fmap. destruct (plan !! day) as [d|]; constructor.
    cbn [patchDay lunch dinner]. now rewrite !slotHasId_patchSlot. }
  assert (Hrel' : forall day,
             option_Forall2
               (fun d d' =>
                  slotHasId id0 (lunch d) = slotHasId id0 (lunch d')
                  /\ slotHasId id0 (dinner d) = slotHasId id0 (dinner d'))
               (plan !! day) ((patchDay id1 img1 <$> plan) !! day)).
  { intros day. rewrite lookup_fmap. destruct (plan !! day) as [d|]; constructor.
    cbn [patchDay lunch dinner]. now rewrite !slotHasId_patchSlot. }
  destruct ((patchPlan id0 img (patchDay id1 img1 <$> plan)).2) eqn:E1;
    destruct ((patchPlan id0 img plan).2) eqn:E2; try reflexivity.
  - rewrite (H _ _ Hrel' E2) in E1. discriminate.
  - rewrite (H _ _ Hrel E1) in E2. discriminate.
Qed.

Lemma session_eq (s1 s2 : Session) :
  recipes s1 = recipes s2 ->
  favoriteRecipes s1 = favoriteRecipes s2 ->
  recipeCache s1 = recipeCache s2 ->
  planHeap s1 = planHeap s2 ->
  weeklyPlan s1 = weeklyPlan s2 ->
  s1 = s2.
Proof. destruct s1, s2. cbn. congruence. Qed.

End ImageMoreFacts.

Section ImageExtras.
Import Images ImagesAux ImageFacts ImageHandlerFacts ImageMoreFacts.

(** X14.  For two handlers that captured the same plan object, a later image
    for the same id replaces the earlier one in the three lists, in the plan
    object and in the choice of the current plan: patching twice is the same
    as patching once with the last image (in particular the patch is
    idempotent). *)
Theorem handleUpdateRecipeImage_last_wins (captured : option nat)
    (id0 img1 img2 : string) (s : Session) :
  handleUpdateRecipeImage captured id0 img2
    (handleUpdateRecipeImage captured id0 img1 s)
  = handleUpdateRecipeImage captured id0 img2 s.
Proof.
  apply session_eq;
    rewrite ?handler_recipes, ?handler_favorites, ?handler_cache,
            ?handler_heap, ?handler_current, ?handler_heap;
    try apply patchList_same.
  - destruct captured as [a|]; [|reflexivity].
    destruct (planHeap s !! a) as [plan|] eqn:Hp; [|now rewrite Hp].
    rewrite lookup_insert_eq, insert_insert_eq, <- map_fmap_compose.
    f_equal. apply map_fmap_ext. intros day d _. apply patchDay_same.
  - destruct captured as [a|]; [|reflexivity].
    destruct (planHeap s !! a) as [plan|] eqn:Hp; [|now rewrite Hp].
    rewrite lookup_insert_eq, planChanged_patched.
    unfold patchPlan. cbn [snd]. now destruct (existsb _ (map_to_list plan)).
Qed.

(** X15.  For two handlers that captured the same plan object, images for
    two different ids can arrive in either order: the two patches commute. *)
Theorem handleUpdateRecipeImage_commute (captured : option nat)
    (id1 id2 img1 img2 : string) (s : Session) :
  id1 <> id2 ->
  handleUpdateRecipeImage captured id1 img1
    (handleUpdateRecipeImage captured id2 img2 s)
  = handleUpdateRecipeImage captured id2 img2
      (handleUpdateRecipeImage captured id1 img1 s).
Proof.
  intros Hne.
  apply session_eq;
    rewrite ?handler_recipes, ?handler_favorites, ?handler_cache,
            ?handler_heap, ?handler_current, ?handler_heap;
    try (now apply patchList_comm).
  - destruct captured as [a|]; [|reflexivity].
    destruct (planHeap s !! a) as [plan|] eqn:Hp; [|now rewrite Hp].
    rewrite !lookup_insert_eq, !insert_insert_eq, <- !map_fmap_compose.
    f_equal. apply map_fmap_ext. intros day d _. now apply patchDay_comm.
  - destruct captured as [a|]; [|reflexivity].
    destruct (planHeap s !! a) as [plan|] eqn:Hp; [|now rewrite Hp].
    rewrite !lookup_insert_eq, !planChanged_patched.
    now destruct ((patchPlan id1 img1 plan).2), ((patchPlan id2 img2 plan).2).
Qed.

Lemma handleUpdateRecipeImage_commute_witness :
  handleUpdateRecipeImage (Some 0%nat) "a" "imgA"
    (handleUpdateRecipeImage (Some 0%nat) "b" "imgB"
       (mkSession [mkRecipe "a" "Soup" "" DINNER BEEF 20 2 [] [] None;
                   mkRecipe "b" "Salad" "" LUNCH FISH 10 1 [] [] None]
                  [] []
                  {[ 0%nat :=
                       {[ "Monday" :=
                            mkDayPlan
                              (Some (mkRecipe "b" "Salad" "" LUNCH FISH 10 1 [] [] None))
                              (Some (mkRecipe "a" "Soup" "" DINNER BEEF 20 2 [] [] None)) ]} ]}
                  (Some 0%nat)))
  = handleUpdateRecipeImage (Some 0%nat) "b" "imgB"
      (handleUpdateRecipeImage (Some 0%nat) "a" "imgA"
         (mkSession [mkRecipe "a" "Soup" "" DINNER BEEF 20 2 [] [] None;
                     mkRecipe "b" "Salad" "" LUNCH FISH 10 1 [] [] None]
                    [] []
                    {[ 0%nat :=
                         {[ "Monday" :=
                              mkDayPlan
                                (Some (mkRecipe "b" "Salad" "" LUNCH FISH 10 1 [] [] None))
                                (Some (mkRecipe "a" "Soup" "" DINNER BEEF 20 2 [] [] None)) ]} ]}
                    (Some 0%nat))).
Proof.
  apply handleUpdateRecipeImage_commute. discriminate.
Defined.

End ImageExtras.

Section FavoriteExtras.
Import Favorites.

Lemma isFav_existsb favs recipe :
  isFav favs recipe
  = existsb (fun r => String.eqb (title r) (title recipe)) favs.
Proof.
  unfold isFav, findFavorite. induction favs as [|r t IH]; [reflexivity|].
  cbn [List.find existsb]. now destruct (String.eqb (title r) (title recipe)).
Qed.

Lemma existsb_filter_other (t0 t1 : string) (l : list Recipe) :
  t0 <> t1 ->
  existsb (fun r => String.eqb (title r) t1)
          (List.filter (fun r => negb (String.eqb (title r) t0)) l)
  = existsb (fun r => String.eqb (title r) t1) l.
Proof.
  intros Hne. induction l as [|r t IH]; [reflexivity|]. cbn [List.filter existsb].
  destruct (String.eqb_spec (title r) t0) as [E|E]; cbn [negb existsb].
  - rewrite IH. destruct (String.eqb_spec (title r) t1); [congruence|reflexivity].
  - now rewrite IH.
Qed.

Lemma existsb_filter_same (t0 : string) (l : list Recipe) :
  existsb (fun r => String.eqb (title r) t0)
          (List.filter (fun r => negb (String.eqb (title r) t0)) l)
  = false.
Proof.
  induction l as [|r t IH]; [reflexivity|]. cbn [List.filter].
  destruct (String.eqb (title r) t0) eqn:E; cbn [negb existsb]; [exact IH|].
  now rewrite E, IH.
Qed.

(** X16.  Toggling a favourite from the list the screen shows flips whether
    the recipe's title is a favourite and leaves the status of every other
    title as it was. *)
Theorem handleToggleFavorite_flips (favoriteRecipes : list Recipe)
    (recipe other : Recipe) :
  isFav (handleToggleFavorite favoriteRecipes recipe favoriteRecipes) recipe
  = negb (isFav favoriteRecipes recipe)
  /\ (title other <> title recipe ->
      isFav (handleToggleFavorite favoriteRecipes recipe favoriteRecipes) other
      = isFav favoriteRecipes other).
Proof.
  rewrite !isFav_existsb. unfold handleToggleFavorite.
  pose proof (isFav_existsb favoriteRecipes recipe) as E. unfold isFav in E.
  destruct (findFavorite favoriteRecipes recipe).
  - rewrite <- E. split; [apply existsb_filter_same|].
    intros Hne. apply existsb_filter_other. congruence.
  - rewrite <- E, !existsb_app. cbn [existsb].
    rewrite String.eqb_refl, <- E. split; [reflexivity|].
    intros Hne. apply String.eqb_neq in Hne. rewrite String.eqb_sym in Hne.
    now rewrite Hne, !orb_false_r.
Qed.

(** X17.  Adding a favourite and removing it again (each toggle made from the
    list then shown) gives back the original list, when the title was not a
    favourite before. *)
Theorem handleToggleFavorite_round_trip (favoriteRecipes : list Recipe)
    (recipe : Recipe) :
  isFav favoriteRecipes recipe = false ->
  handleToggleFavorite
    (handleToggleFavorite favoriteRecipes recipe favoriteRecipes) recipe
    (handleToggleFavorite favoriteRecipes recipe favoriteRecipes)
  = favoriteRecipes.
Proof.
  intros Hnot. rewrite isFav_existsb in Hnot.
  assert (Hnone : findFavorite favoriteRecipes recipe = None).
  { pose proof (isFav_existsb favoriteRecipes recipe) as E. unfold isFav in E.
    destruct (findFavorite favoriteRecipes recipe); [congruence|reflexivity]. }
  unfold handleToggleFavorite at 2 3. rewrite Hnone.
  assert (Hsome : isFav (favoriteRecipes ++ [recipe]) recipe = true).
  { rewrite isFav_existsb, existsb_app. cbn. now rewrite String.eqb_refl, orb_true_r. }
  unfold handleToggleFavorite, isFav in *.
  destruct (findFavorite (favoriteRecipes ++ [recipe]) recipe); [|discriminate].
  rewrite List.filter_app. cbn [List.filter]. rewrite String.eqb_refl. cbn [negb].
  rewrite app_nil_r. clear Hsome Hnone.
  induction favoriteRecipes as [|r0 t IH]; [reflexivity|].
  cbn [existsb List.filter] in *. apply orb_false_elim in Hnot as [H1 H2].
  rewrite H1. cbn [negb]. f_equal. now apply IH.
Qed.

Lemma handleToggleFavorite_round_trip_witness :
  handleToggleFavorite
    (handleToggleFavorite [mkRecipe "a" "Soup" "" DINNER BEEF 20 2 [] [] None]
       (mkRecipe "b" "Salad" "" LUNCH FISH 10 1 [] [] None)
       [mkRecipe "a" "Soup" "" DINNER BEEF 20 2 [] [] None])
    (mkRecipe "b" "Salad" "" LUNCH FISH 10 1 [] [] None)
    (handleToggleFavorite [mkRecipe "a" "Soup" "" DINNER BEEF 20 2 [] [] None]
       (mkRecipe "b" "Salad" "" LUNCH FISH 10 1 [] [] None)
       [mkRecipe "a" "Soup" "" DINNER BEEF 20 2 [] [] None])
  = [mkRecipe "a" "Soup" "" DINNER BEEF 20 2 [] [] None].
Proof.
  apply handleToggleFavorite_round_trip. reflexivity.
Defined.

End FavoriteExtras.

(* ===================================================================== *)
(** * Further properties of the shopping list *)
(* ===================================================================== *)

Module ShoppingMoreFacts.
Import Shopping ShoppingFacts ListEntries.

(** ** Membership of a recipe *)

Lemma inList_cons it l t :
  isRecipeInList (it :: l) t
  = existsb (fun c => String.eqb (recipeTitle c) t) (contributions it)
    || isRecipeInList l t.
Proof. reflexivity. Qed.

Lemma inList_merge id0 s n c l t :
  isRecipeInList (mergeContribution id0 s n c l) t
  = isRecipeInList l t || String.eqb (recipeTitle c) t.
Proof.
  induction l as [|it rest IH]; cbn [mergeContribution].
  - cbn. now rewrite !orb_false_r.
  - destruct (sameKey s n it); rewrite !inList_cons.
    + cbn [mergeInto contributions]. rewrite existsb_app. cbn [existsb].
      rewrite orb_false_r.
      destruct (existsb _ (contributions it)), (isRecipeInList rest t),
        (String.eqb (recipeTitle c) t); reflexivity.
    + rewrite IH. now rewrite orb_assoc.
Qed.

Lemma inList_fold rand recipe t ings : forall l d,
  isRecipeInList (fold_left (addIngredient rand recipe) ings (l, d)).1 t
  = isRecipeInList l t
    || (String.eqb (title recipe) t && negb (length ings =? 0)%nat).
Proof.
  induction ings as [|ing rest IH]; intros l d; cbn [fold_left].
  - cbn. now rewrite andb_false_r, orb_false_r.
  - rewrite addIngredient_merge, IH, inList_merge.
    cbn [contributionOf recipeTitle length Nat.eqb negb].
    destruct (isRecipeInList l t), (String.eqb (title recipe) t),
      (length rest =? 0)%nat; reflexivity.
Qed.

Lemma strip_has_other t t' it :
  t' <> t ->
  existsb (fun c => String.eqb (recipeTitle c) t') (contributions (stripRecipe t it))
  = existsb (fun c => String.eqb (recipeTitle c) t') (contributions it).
Proof.
  intros Hne. unfold stripRecipe. cbn [contributions withContributions].
  induction (contributions it) as [|c cs IH]; [reflexivity|].
  cbn [List.filter existsb].
  destruct (String.eqb_spec (recipeTitle c) t) as [E|E]; cbn [negb existsb].
  - rewrite IH. destruct (String.eqb_spec (recipeTitle c) t'); [congruence|reflexivity].
  - now rewrite IH.
Qed.

Lemma strip_has_none t it :
  existsb (fun c => String.eqb (recipeTitle c) t) (contributions (stripRecipe t it))
  = false.
Proof.
  unfold stripRecipe. cbn [contributions withContributions].
  induction (contributions it) as [|c cs IH]; [reflexivity|].
  cbn [List.filter].
  destruct (String.eqb (recipeTitle c) t) eqn:E; cbn [negb existsb]; [exact IH|].
  now rewrite E, IH.
Qed.

Lemma inList_remove_same t l : isRecipeInList (removeRecipe t l) t = false.
Proof.
  induction l as [|it rest IH]; [reflexivity|]. rewrite removeRecipe_cons.
  destruct (decide _); [|exact IH].
  now rewrite inList_cons, strip_has_none, IH.
Qed.

Lemma inList_remove_other t t' l :
  t' <> t -> isRecipeInList (removeRecipe t l) t' = isRecipeInList l t'.
Proof.
  intros Hne. induction l as [|it rest IH]; [reflexivity|].
  rewrite removeRecipe_cons, !inList_cons.
  destruct (decide _) as [Hex|Hno].
  - now rewrite inList_cons, strip_has_other, IH.
  - rewrite IH.
    destruct (existsb _ (contributions it)) eqn:E; [|reflexivity].
    exfalso. apply Hno. apply existsb_exists in E as (c & Hc & Ht).
    apply String.eqb_eq in Ht. apply Exists_exists. exists c.
    split; [now apply list_elem_of_In|congruence].
Qed.

(** ** Adding and then retracting *)

Lemma unchecked_view_strip_merge t c it :
  recipeTitle c = t ->
  unchecked_view (stripRecipe t (mergeInto c it))
  = unchecked_view (stripRecipe t it).
Proof.
  intros Hc. unfold unchecked_view, stripRecipe.
  cbn [item_id name store contributions withContributions mergeInto].
  f_equal. rewrite List.filter_app. cbn [List.filter].
  rewrite Hc, String.eqb_refl. cbn [negb]. apply app_nil_r.
Qed.

Lemma others_merge t c (cs : list IngredientContribution) :
  recipeTitle c = t ->
  Exists (fun c' => recipeTitle c' <> t) (cs ++ [c])
  <-> Exists (fun c' => recipeTitle c' <> t) cs.
Proof.
  intros Hc. rewrite Exists_app. split; [|now left].
  intros [H|H]; [exact H|].
  apply Exists_cons in H as [H|H]; [contradiction|]. inversion H.
Qed.

Lemma remove_merge id0 s n c l t :
  recipeTitle c = t ->
  map unchecked_view (removeRecipe t (mergeContribution id0 s n c l))
  = map unchecked_view (removeRecipe t l).
Proof.
  intros Hc. induction l as [|it rest IH]; cbn [mergeContribution].
  - rewrite removeRecipe_cons. destruct (decide _) as [Hex|_]; [|reflexivity].
    exfalso. cbn in Hex. apply Exists_cons in Hex as [H|H]; [contradiction|].
    inversion H.
  - destruct (sameKey s n it); rewrite !removeRecipe_cons.
    + cbn [mergeInto contributions].
      destruct (decide (Exists _ (contributions it ++ [c]))) as [H1|H1];
        destruct (decide (Exists _ (contributions it))) as [H2|H2].
      * cbn [map]. f_equal. now apply unchecked_view_strip_merge.
      * exfalso. now apply H2, (others_merge t c).
      * exfalso. now apply H1, (others_merge t c).
      * reflexivity.
    + destruct (decide _); cbn [map]; now rewrite IH.
Qed.

Lemma remove_fold rand recipe ings : forall l d,
  map unchecked_view
      (removeRecipe (title recipe)
         (fold_left (addIngredient rand recipe) ings (l, d)).1)
  = map unchecked_view (removeRecipe (title recipe) l).
Proof.
  induction ings as [|ing rest IH]; intros l d; cbn [fold_left]; [reflexivity|].
  rewrite addIngredient_merge, IH. now apply remove_merge.
Qed.

Lemma remove_absent t (l : list ShoppingListItem) :
  isRecipeInList l t = false ->
  Forall (fun it => contributions it <> []) l ->
  removeRecipe t l = l.
Proof.
  intros Hin Hne. induction Hne as [|it rest Hit _ IH]; [reflexivity|].
  rewrite inList_cons in Hin. apply orb_false_elim in Hin as [H1 H2].
  rewrite removeRecipe_cons, (IH H2).
  assert (Hall : Forall (fun c => recipeTitle c <> t) (contributions it)).
  { apply Forall_forall. intros c Hc E.
    assert (existsb (fun c => String.eqb (recipeTitle c) t) (contributions it)
            = true); [|congruence].
    apply existsb_exists. exists c.
    split; [now apply list_elem_of_In|now apply String.eqb_eq]. }
  destruct (decide _) as [_|Hno].
  - f_equal. unfold stripRecipe, withContributions. destruct it as [i n s ch cs].
    cbn [contributions item_id name store checked] in *. f_equal.
    clear Hit H1. induction Hall as [|c cs' Hc _ IHc]; [reflexivity|].
    cbn [List.filter]. apply String.eqb_neq in Hc. rewrite Hc. cbn [negb].
    now f_equal.
  - exfalso. apply Hno. destruct (contributions it) as [|c cs]; [contradiction|].
    apply Forall_cons in Hall as [Hc _]. now left.
Qed.

(** ** Invariants *)

Lemma nonempty_merge id0 s n c (l : list ShoppingListItem) :
  Forall (fun it => contributions it <> []) l ->
  Forall (fun it => contributions it <> []) (mergeContribution id0 s n c l).
Proof.
  induction 1 as [|it rest Hit Hrest IH]; cbn [mergeContribution].
  - constructor; [discriminate|constructor].
  - destruct (sameKey s n it); constructor; try assumption.
    cbn. now destruct (contributions it).
Qed.

Lemma nonempty_fold rand recipe ings : forall l d,
  Forall (fun it => contributions it <> []) l ->
  Forall (fun it => contributions it <> [])
         (fold_left (addIngredient rand recipe) ings (l, d)).1.
Proof.
  induction ings as [|ing rest IH]; intros l d H; cbn [fold_left]; [exact H|].
  rewrite addIngredient_merge. now apply IH, nonempty_merge.
Qed.

Lemma nonempty_remove t l :
  Forall (fun it => contributions it <> []) (removeRecipe t l).
Proof.
  unfold removeRecipe. apply Forall_forall. intros it Hin.
  apply list_elem_of_In, filter_In in Hin as [_ H].
  apply Nat.ltb_lt in H. intros E. rewrite E in H. simpl in H. lia.
Qed.

Lemma keys_remove t l k : k ∈ map key (removeRecipe t l) -> k ∈ map key l.
Proof.
  induction l as [|it rest IH]; [easy|]. rewrite removeRecipe_cons.
  cbn [map]. destruct (decide _).
  - cbn [map]. intros [->|H]%elem_of_cons; [apply list_elem_of_here|].
    now apply list_elem_of_further, IH.
  - intros H. now apply list_elem_of_further, IH.
Qed.

Lemma NoDup_remove t l : NoDup (map key l) -> NoDup (map key (removeRecipe t l)).
Proof.
  induction l as [|it rest IH]; [easy|]. cbn [map].
  intros [Hk Hr]%NoDup_cons. rewrite removeRecipe_cons.
  destruct (decide _); [|now apply IH].
  cbn [map]. apply NoDup_cons. split; [|now apply IH].
  intros Hin. apply Hk. now apply (keys_remove t).
Qed.

Lemma keys_toggleItem id0 l : map key (toggleShoppingItem id0 l) = map key l.
Proof.
  unfold toggleShoppingItem. rewrite map_map. apply map_ext. intros it.
  now destruct (String.eqb (item_id it) id0).
Qed.

Lemma NoDup_filter_keys (f : ShoppingListItem -> bool) l :
  NoDup (map key l) -> NoDup (map key (List.filter f l)).
Proof.
  induction l as [|it rest IH]; [easy|]. cbn [map List.filter].
  intros [Hk Hr]%NoDup_cons. destruct (f it); [|now apply IH].
  cbn [map]. apply NoDup_cons. split; [|now apply IH].
  intros (it' & E & Hin)%list_elem_of_fmap. apply Hk.
  apply list_elem_of_fmap. exists it'. split; [exact E|].
  apply list_elem_of_In, filter_In in Hin as [Hin _]. now apply list_elem_of_In.
Qed.

(** ** Items keep their place *)

Lemma extends_refl it : extends it it.
Proof. repeat split; reflexivity. Qed.

Lemma extends_trans a b c : extends a b -> extends b c -> extends a c.
Proof.
  intros (H1 & H2 & H3 & H4) (G1 & G2 & G3 & G4).
  repeat split; try congruence. now transitivity (contributions b).
Qed.

Lemma merge_extends id0 s n c (l : list ShoppingListItem) i it :
  l !! i = Some it ->
  exists it', mergeContribution id0 s n c l !! i = Some it' /\ extends it it'.
Proof.
  revert i. induction l as [|x rest IH]; intros i Hi; [discriminate|].
  cbn [mergeContribution]. destruct (sameKey s n x).
  - destruct i as [|i]; cbn in *.
    + injection Hi as ->. eexists. split; [reflexivity|].
      repeat split; try reflexivity. cbn. now apply prefix_app_r.
    + exists it. split; [exact Hi|apply extends_refl].
  - destruct i as [|i]; cbn in *.
    + injection Hi as ->. exists it. split; [reflexivity|apply extends_refl].
    + now apply IH.
Qed.

Lemma merge_length id0 s n c (l : list ShoppingListItem) :
  length l <= length (mergeContribution id0 s n c l) <= S (length l).
Proof.
  induction l as [|x rest IH]; cbn [mergeContribution]; [simpl; lia|].
  destruct (sameKey s n x); simpl; lia.
Qed.

Lemma fold_extends rand recipe ings : forall (l : list ShoppingListItem) d i it,
  l !! i = Some it ->
  exists it', (fold_left (addIngredient rand recipe) ings (l, d)).1 !! i = Some it'
              /\ extends it it'.
Proof.
  induction ings as [|ing rest IH]; intros l d i it Hi; cbn [fold_left].
  - exists it. split; [exact Hi|apply extends_refl].
  - rewrite addIngredient_merge.
    destruct (merge_extends (rand d) (storeOrAny (ing_store ing))
                (cleanIngredientText (item ing)) (contributionOf recipe ing)
                l i it Hi) as (it1 & H1 & E1).
    match goal with
    | |- context [fold_left _ rest (_, ?d')] =>
        destruct (IH _ d' i it1 H1) as (it2 & H2 & E2)
    end.
    exists it2. split; [exact H2|]. now apply extends_trans with it1.
Qed.

Lemma fold_length rand recipe ings : forall (l : list ShoppingListItem) d,
  length l <= length (fold_left (addIngredient rand recipe) ings (l, d)).1
           <= length l + length ings.
Proof.
  induction ings as [|ing rest IH]; intros l d; cbn [fold_left]; [simpl; lia|].
  rewrite addIngredient_merge.
  pose proof (merge_length (rand d) (storeOrAny (ing_store ing))
                (cleanIngredientText (item ing)) (contributionOf recipe ing) l).
  specialize (IH (mergeContribution (rand d) (storeOrAny (ing_store ing))
                (cleanIngredientText (item ing)) (contributionOf recipe ing) l)
                (if existsb (sameKey (storeOrAny (ing_store ing))
                               (cleanIngredientText (item ing))) l
                 then d else S d)).
  simpl. lia.
Qed.

End ShoppingMoreFacts.

Section ShoppingExtras.
Import Shopping ShoppingFacts ListEntries ShoppingMoreFacts Planner.

(** X18.  After the contributions of a title are retracted the list no longer
    contains that recipe, and whether any other title is in the list is
    unchanged. *)
Theorem isRecipeInList_removeRecipe (t : string) (l : list ShoppingListItem) :
  isRecipeInList (removeRecipe t l) t = false
  /\ forall t', t' <> t ->
       isRecipeInList (removeRecipe t l) t' = isRecipeInList l t'.
Proof.
  split; [apply inList_remove_same|]. intros t' H. now apply inList_remove_other.
Qed.

(** X19.  After the add logic a title is in the list exactly when it was
    before or it is the title of the added recipe and that recipe has at
    least one ingredient: a recipe without ingredients leaves no trace. *)
Theorem isRecipeInList_addRecipe (rand : nat -> string) (recipe : Recipe)
    (l : list ShoppingListItem) (t : string) :
  isRecipeInList (addRecipe rand recipe l) t
  = isRecipeInList l t
    || (String.eqb (title recipe) t
        && negb (length (ingredients recipe) =? 0)%nat).
Proof. apply inList_fold. Qed.

(** X20.  For a recipe with at least one ingredient, [toggleShoppingList]
    run from the list on screen flips whether the recipe is in the list. *)
Theorem toggleShoppingList_flips (rand : nat -> string) (recipe : Recipe)
    (l : list ShoppingListItem) :
  ingredients recipe <> [] ->
  isRecipeInList (toggleShoppingList l rand recipe l) (title recipe)
  = negb (isRecipeInList l (title recipe)).
Proof.
  intros Hne. unfold toggleShoppingList.
  destruct (isRecipeInList l (title recipe)) eqn:E.
  - apply inList_remove_same.
  - unfold addRecipe. rewrite inList_fold, E, String.eqb_refl.
    destruct (ingredients recipe); [contradiction|reflexivity].
Qed.

Lemma toggleShoppingList_flips_witness :
  isRecipeInList
    (toggleShoppingList [] (fun _ => "x")
       (mkRecipe "r1" "Salad" "" LUNCH VEGETARIAN 5 1
          [mkIngredient "2 Tomatoes" "Aldi" (Some "$3.50")] [] None) [])
    "Salad"
  = negb (isRecipeInList [] "Salad").
Proof.
  apply (toggleShoppingList_flips (fun _ => "x")
           (mkRecipe "r1" "Salad" "" LUNCH VEGETARIAN 5 1
              [mkIngredient "2 Tomatoes" "Aldi" (Some "$3.50")] [] None) []).
  discriminate.
Defined.

(** X21.  Adding a recipe and toggling it again (each time from the list then
    on screen) gives back the original items, in order, with their ids,
    names, stores and contributions; only [checked] flags may have been
    cleared.  This needs the recipe to be absent at the start and every item
    to hold a contribution. *)
Theorem toggleShoppingList_round_trip (rand1 rand2 : nat -> string)
    (recipe : Recipe) (l : list ShoppingListItem) :
  isRecipeInList l (title recipe) = false ->
  Forall (fun it => contributions it <> []) l ->
  map unchecked_view
      (toggleShoppingList (toggleShoppingList l rand1 recipe l) rand2 recipe
         (toggleShoppingList l rand1 recipe l))
  = map unchecked_view l.
Proof.
  intros Hout Hne. rewrite (toggle_adds l rand1 recipe Hout).
  unfold toggleShoppingList.
  destruct (isRecipeInList (addRecipe rand1 recipe l) (title recipe)) eqn:E.
  - unfold addRecipe. rewrite remove_fold. now rewrite remove_absent.
  - unfold addRecipe in E. rewrite inList_fold, Hout, String.eqb_refl in E.
    destruct (ingredients recipe) eqn:Hi; [|discriminate E].
    unfold addRecipe. rewrite Hi. reflexivity.
Qed.

Lemma toggleShoppingList_round_trip_witness :
  map unchecked_view
      (toggleShoppingList
         (toggleShoppingList
            [mkItem "i1" "tomatoe" "Aldi" true
               [mkContribution "r1" "Salad" "2 Tomatoes" (Some "$3.50")]]
            (fun _ => "x")
            (mkRecipe "r2" "Soup" "" DINNER ANY 30 2
               [mkIngredient "Tomatoes (diced)" "Aldi" (Some "$1.25");
                mkIngredient "1 Onion" "Coles" None] [] None)
            [mkItem "i1" "tomatoe" "Aldi" true
               [mkContribution "r1" "Salad" "2 Tomatoes" (Some "$3.50")]])
         (fun _ => "y")
         (mkRecipe "r2" "Soup" "" DINNER ANY 30 2
            [mkIngredient "Tomatoes (diced)" "Aldi" (Some "$1.25");
             mkIngredient "1 Onion" "Coles" None] [] None)
         (toggleShoppingList
            [mkItem "i1" "tomatoe" "Aldi" true
               [mkContribution "r1" "Salad" "2 Tomatoes" (Some "$3.50")]]
            (fun _ => "x")
            (mkRecipe "r2" "Soup" "" DINNER ANY 30 2
               [mkIngredient "Tomatoes (diced)" "Aldi" (Some "$1.25");
                mkIngredient "1 Onion" "Coles" None] [] None)
            [mkItem "i1" "tomatoe" "Aldi" true
               [mkContribution "r1" "Salad" "2 Tomatoes" (Some "$3.50")]]))
  = map unchecked_view
        [mkItem "i1" "tomatoe" "Aldi" true
           [mkContribution "r1" "Salad" "2 Tomatoes" (Some "$3.50")]].
Proof.
  apply toggleShoppingList_round_trip.
  - reflexivity.
  - repeat constructor. discriminate.
Defined.

(** X22.  The two invariants of the list, one item per (store, name) and no
    item without contributions, are kept by every operation on it: adding a
    recipe, retracting a title, ticking an item and removing an item. *)
Theorem shopping_list_invariants (l : list ShoppingListItem) :
  NoDup (map key l) ->
  Forall (fun it => contributions it <> []) l ->
  (forall rand recipe,
      NoDup (map key (addRecipe rand recipe l))
      /\ Forall (fun it => contributions it <> []) (addRecipe rand recipe l))
  /\ (forall t,
        NoDup (map key (removeRecipe t l))
        /\ Forall (fun it => contributions it <> []) (removeRecipe t l))
  /\ (forall id0,
        NoDup (map key (toggleShoppingItem id0 l))
        /\ Forall (fun it => contributions it <> []) (toggleShoppingItem id0 l))
  /\ (forall id0,
        NoDup (map key (removeFromShoppingList id0 l))
        /\ Forall (fun it => contributions it <> [])
                  (removeFromShoppingList id0 l)).
Proof.
  intros Hnd Hne. split; [|split; [|split]].
  - intros rand recipe. split; [now apply NoDup_fold|now apply nonempty_fold].
  - intros t. split; [now apply NoDup_remove|apply nonempty_remove].
  - intros id0. split; [now rewrite keys_toggleItem|].
    unfold toggleShoppingItem. apply Forall_forall. intros it Hin.
    apply list_elem_of_fmap in Hin as (it0 & -> & Hin0).
    rewrite Forall_forall in Hne. specialize (Hne it0 Hin0).
    now destruct (String.eqb (item_id it0) id0).
  - intros id0. split; [now apply NoDup_filter_keys|].
    unfold removeFromShoppingList. apply Forall_forall. intros it Hin.
    apply list_elem_of_In, filter_In in Hin as [Hin _].
    rewrite Forall_forall in Hne. now apply Hne, list_elem_of_In.
Qed.

Lemma shopping_list_invariants_witness :
  (forall rand recipe,
      NoDup (map key (addRecipe rand recipe
                        [mkItem "i1" "tomatoe" "Aldi" true
                           [mkContribution "r1" "Salad" "2 Tomatoes" None]]))
      /\ Forall (fun it => contributions it <> [])
                (addRecipe rand recipe
                   [mkItem "i1" "tomatoe" "Aldi" true
                      [mkContribution "r1" "Salad" "2 Tomatoes" None]]))
  /\ (forall t,
        NoDup (map key (removeRecipe t
                          [mkItem "i1" "tomatoe" "Aldi" true
                             [mkContribution "r1" "Salad" "2 Tomatoes" None]]))
        /\ Forall (fun it => contributions it <> [])
                  (removeRecipe t
                     [mkItem "i1" "tomatoe" "Aldi" true
                        [mkContribution "r1" "Salad" "2 Tomatoes" None]]))
  /\ (forall id0,
        NoDup (map key (toggleShoppingItem id0
                          [mkItem "i1" "tomatoe" "Aldi" true
                             [mkContribution "r1" "Salad" "2 Tomatoes" None]]))
        /\ Forall (fun it => contributions it <> [])
                  (toggleShoppingItem id0
                     [mkItem "i1" "tomatoe" "Aldi" true
                        [mkContribution "r1" "Salad" "2 Tomatoes" None]]))
  /\ (forall id0,
        NoDup (map key (removeFromShoppingList id0
                          [mkItem "i1" "tomatoe" "Aldi" true
                             [mkContribution "r1" "Salad" "2 Tomatoes" None]]))
        /\ Forall (fun it => contributions it <> [])
                  (removeFromShoppingList id0
                     [mkItem "i1" "tomatoe" "Aldi" true
                        [mkContribution "r1" "Salad" "2 Tomatoes" None]])).
Proof.
  apply (shopping_list_invariants
           [mkItem "i1" "tomatoe" "Aldi" true
              [mkContribution "r1" "Salad" "2 Tomatoes" None]]).
  - simpl. apply NoDup_singleton.
  - repeat constructor. discriminate.
Defined.

(** X23.  Ticking an item twice restores the list, and ticking changes
    nothing but [checked] flags. *)
Theorem toggleShoppingItem_involution (id0 : string) (l : list ShoppingListItem) :
  toggleShoppingItem id0 (toggleShoppingItem id0 l) = l
  /\ map unchecked_view (toggleShoppingItem id0 l) = map unchecked_view l.
Proof.
  unfold toggleShoppingItem. rewrite !map_map. split.
  - rewrite <- (map_id l) at 2. apply map_ext. intros [i n s ch cs].
    cbn [item_id]. destruct (String.eqb i id0) eqn:E; cbn [item_id].
    + rewrite E. cbn. now rewrite negb_involutive.
    + now rewrite E.
  - apply map_ext. intros it. now destruct (String.eqb (item_id it) id0).
Qed.

(** X24.  The add logic never moves or drops an item: every item stays at its
    index with its id, name and store, its earlier contributions remain a
    prefix of its contributions, and the list grows by at most one item per
    ingredient. *)
Theorem addRecipe_keeps_items (rand : nat -> string) (recipe : Recipe)
    (l : list ShoppingListItem) :
  (forall i it, l !! i = Some it ->
     exists it', addRecipe rand recipe l !! i = Some it' /\ extends it it')
  /\ length l <= length (addRecipe rand recipe l)
              <= length l + length (ingredients recipe).
Proof.
  split; [intros i it; apply fold_extends|apply fold_length].
Qed.

Lemma addSlot_fold shoppingList rands slots : forall update count,
  (fold_left (addSlot shoppingList rands) slots (update, count)).2
  = count
    + length (List.filter
                (fun r => negb (isRecipeInList shoppingList (title r))) slots)
  /\ forall prev store0 normName,
       keyContribs store0 normName
         ((fold_left (addSlot shoppingList rands) slots (update, count)).1 prev)
       = keyContribs store0 normName (update prev)
         ++ flat_map (contribsFor store0 normName)
              (List.filter
                 (fun r => negb (isRecipeInList shoppingList (title r))) slots).
Proof.
  induction slots as [|r rest IH]; intros update count; cbn [fold_left List.filter].
  - split; [cbn; lia|]. intros. cbn. now rewrite app_nil_r.
  - unfold addSlot at 2 4.
    destruct (isRecipeInList shoppingList (title r)) eqn:E; cbn [negb].
    + apply IH.
    + destruct (IH (fun prev =>
                      toggleShoppingList shoppingList (rands count) r (update prev))
                   (S count)) as [IH1 IH2].
      split; [rewrite IH1; cbn; lia|].
      intros prev s n. rewrite IH2. cbn [flat_map].
      rewrite (toggle_adds _ _ _ E), keyContribs_addRecipe.
      now rewrite <- app_assoc.
Qed.

(** X25.  "Add all" never retracts anything: it counts the plan's recipes
    whose title is not in the list on screen and, for every (store, name),
    leaves the item of that key with what it held followed by the
    contributions of those recipes in plan order.  When every recipe of the
    plan is already in the list the count is 0 and the list holds the same
    contributions.  The plan's recipes are, day after day, the lunch and
    then the dinner of the day, for the slots that are filled: on a two-day
    plan (soup and pie, then stew for dinner only) with stew on screen, soup
    and pie are added, merged into one tomato item, and the count is 2; with
    an empty list on screen the count is 3. *)
Theorem addAllToShoppingList_spec (shoppingList : list ShoppingListItem)
    (rands : nat -> nat -> string) (days : list DayPlan) :
  (addAllToShoppingList shoppingList rands days).2
  = length (admitted shoppingList days)
  /\ (forall prev store0 normName,
        keyContribs store0 normName
          ((addAllToShoppingList shoppingList rands days).1 prev)
        = keyContribs store0 normName prev
          ++ flat_map (contribsFor store0 normName)
                      (admitted shoppingList days))
  /\ (Forall (fun r => isRecipeInList shoppingList (title r) = true)
             (allRecipes days) ->
      (addAllToShoppingList shoppingList rands days).2 = 0
      /\ forall prev store0 normName,
           keyContribs store0 normName
             ((addAllToShoppingList shoppingList rands days).1 prev)
           = keyContribs store0 normName prev)
  /\ (forall l d, daySlots (mkDayPlan (Some l) (Some d)) = [l; d])
  /\ (forall l, daySlots (mkDayPlan (Some l) None) = [l])
  /\ (forall d, daySlots (mkDayPlan None (Some d)) = [d])
  /\ daySlots (mkDayPlan None None) = []
  /\ allRecipes [] = []
  /\ (forall day rest, allRecipes (day :: rest) = daySlots day ++ allRecipes rest)
  /\ allRecipes twoDays = [soup; pie; stew]
  /\ admitted stewOnScreen twoDays = [soup; pie]
  /\ (addAllToShoppingList stewOnScreen rands twoDays).2 = 2%nat
  /\ (addAllToShoppingList stewOnScreen rands twoDays).1 stewOnScreen
     = [ mkItem "i0" "onion" "Any" true
           [ mkContribution "r3" "Stew" "1 Onion" None ];
         mkItem (rands 0%nat 0%nat) "tomatoe" "Aldi" false
           [ mkContribution "r1" "Soup" "2 Tomatoes" (Some "$3.50");
             mkContribution "r2" "Pie" "Tomatoes (diced)" (Some "$1.25") ] ]
  /\ (addAllToShoppingList [] rands twoDays).2 = 3%nat.
Proof.
  assert (Hclosed :
            (forall l d, daySlots (mkDayPlan (Some l) (Some d)) = [l; d])
            /\ (forall l, daySlots (mkDayPlan (Some l) None) = [l])
            /\ (forall d, daySlots (mkDayPlan None (Some d)) = [d])
            /\ daySlots (mkDayPlan None None) = []
            /\ allRecipes [] = []
            /\ (forall day rest,
                  allRecipes (day :: rest) = daySlots day ++ allRecipes rest)
            /\ allRecipes twoDays = [soup; pie; stew]
            /\ admitted stewOnScreen twoDays = [soup; pie]
            /\ (addAllToShoppingList stewOnScreen rands twoDays).2 = 2%nat
            /\ (addAllToShoppingList stewOnScreen rands twoDays).1 stewOnScreen
               = [ mkItem "i0" "onion" "Any" true
                     [ mkContribution "r3" "Stew" "1 Onion" None ];
                   mkItem (rands 0%nat 0%nat) "tomatoe" "Aldi" false
                     [ mkContribution "r1" "Soup" "2 Tomatoes" (Some "$3.50");
                       mkContribution "r2" "Pie" "Tomatoes (diced)"
                         (Some "$1.25") ] ]
            /\ (addAllToShoppingList [] rands twoDays).2 = 3%nat).
  { do 6 (split; [reflexivity|]). repeat split; vm_compute; reflexivity. }
  refine ((fun H => conj (proj1 H)
                      (conj (proj1 (proj2 H))
                         (conj (proj2 (proj2 H)) Hclosed))) _).
  clear Hclosed. unfold addAllToShoppingList, admitted.
  destruct (addSlot_fold shoppingList rands (allRecipes days)
              (fun prev => prev) 0) as [H1 H2].
  split; [exact H1|]. split; [exact H2|].
  intros Hall.
  assert (E : List.filter
                (fun r => negb (isRecipeInList shoppingList (title r)))
                (allRecipes days) = []).
  { clear H1 H2. induction Hall as [|r rest Hr _ IH]; [reflexivity|].
    cbn [List.filter]. now rewrite Hr. }
  rewrite H1, E. split; [reflexivity|].
  intros prev s n. rewrite H2, E. cbn. apply app_nil_r.
Qed.

End ShoppingExtras.

(* ===================================================================== *)
(** * The planner's protein preferences *)
(* ===================================================================== *)

Section PlannerExtras.
Import Planner.

Lemma includes_false_iff {A : Type} `{EqDecision A} (l : list A) (x : A) :
  includes l x = false <-> x ∉ l.
Proof.
  rewrite <- includes_elem_of. now destruct (includes l x).
Qed.

Lemma filter_out_absent (p : Protein) (l : list Protein) :
  p ∉ l -> List.filter (fun x => negb (bool_decide (x = p))) l = l.
Proof.
  induction l as [|x t IH]; [reflexivity|]. intros H. cbn [List.filter].
  apply not_elem_of_cons in H as [Hx Ht].
  rewrite bool_decide_eq_false_2 by congruence. cbn [negb]. now rewrite IH.
Qed.

Lemma filter_out_gone (p : Protein) (l : list Protein) x :
  x ∈ List.filter (fun y => negb (bool_decide (y = p))) l <-> x ∈ l /\ x <> p.
Proof.
  rewrite !list_elem_of_In, filter_In, negb_true_iff, bool_decide_eq_false.
  tauto.
Qed.

Lemma filter_out_NoDup (p : Protein) (l : list Protein) :
  NoDup l -> NoDup (List.filter (fun x => negb (bool_decide (x = p))) l).
Proof.
  induction 1 as [|x t Hx _ IH]; [constructor|]. cbn [List.filter].
  destruct (negb _); [|exact IH]. constructor; [|exact IH].
  intros H. apply filter_out_gone in H as [H _]. contradiction.
Qed.

Lemma toggleProtein_any preferences : toggleProtein preferences ANY = [ANY].
Proof. reflexivity. Qed.

Lemma toggleProtein_from_any preferences p :
  p <> ANY -> ANY ∈ preferences -> toggleProtein preferences p = [p].
Proof.
  intros Hp Hany. unfold toggleProtein.
  rewrite bool_decide_eq_false_2 by exact Hp.
  apply includes_elem_of in Hany. now rewrite Hany.
Qed.

Lemma toggleProtein_deselect preferences p :
  p <> ANY -> ANY ∉ preferences -> p ∈ preferences ->
  toggleProtein preferences p
  = match List.filter (fun x => negb (bool_decide (x = p))) preferences with
    | [] => [ANY]
    | x :: t => x :: t
    end.
Proof.
  intros Hp Hany Hin. unfold toggleProtein.
  rewrite bool_decide_eq_false_2 by exact Hp.
  apply includes_false_iff in Hany. apply includes_elem_of in Hin.
  rewrite Hany, Hin. now destruct (List.filter _ preferences).
Qed.

Lemma toggleProtein_select preferences p :
  p <> ANY -> ANY ∉ preferences -> p ∉ preferences ->
  toggleProtein preferences p = preferences ++ [p].
Proof.
  intros Hp Hany Hout. unfold toggleProtein.
  rewrite bool_decide_eq_false_2 by exact Hp.
  apply includes_false_iff in Hany, Hout. rewrite Hany, Hout.
  now destruct preferences.
Qed.

(** X26.  The protein preferences are never empty, and the wildcard "Any"
    never sits beside a specific protein: if the new preferences contain
    "Any" they are exactly ["Any"].  Choosing a specific protein selects it
    if it was not selected (or "Any" was), and deselects it otherwise; a list
    without repetitions stays without repetitions. *)
Theorem toggleProtein_shape (preferences : list Protein) (p : Protein) :
  toggleProtein preferences p <> []
  /\ (ANY ∈ toggleProtein preferences p -> toggleProtein preferences p = [ANY])
  /\ (p <> ANY ->
      (p ∈ toggleProtein preferences p <-> p ∉ preferences \/ ANY ∈ preferences))
  /\ (NoDup preferences -> NoDup (toggleProtein preferences p)).
Proof.
  destruct (decide (p = ANY)) as [->|Hp].
  { rewrite toggleProtein_any. split; [discriminate|]. split; [reflexivity|].
    split; [contradiction|]. intros _. apply NoDup_singleton. }
  destruct (decide (ANY ∈ preferences)) as [Hany|Hany].
  { rewrite (toggleProtein_from_any _ _ Hp Hany). split; [discriminate|].
    split; [|split].
    - intros Hin. apply list_elem_of_singleton in Hin. congruence.
    - intros _. split; [now right|]. intros _. apply list_elem_of_here.
    - intros _. apply NoDup_singleton. }
  destruct (decide (p ∈ preferences)) as [Hin|Hout].
  - rewrite (toggleProtein_deselect _ _ Hp Hany Hin).
    destruct (List.filter _ preferences) as [|x t] eqn:Hf.
    + split; [discriminate|]. split; [reflexivity|]. split.
      * intros _. split; [|tauto].
        intros Hx. apply list_elem_of_singleton in Hx. congruence.
      * intros _. apply NoDup_singleton.
    + rewrite <- Hf. split; [rewrite Hf; discriminate|]. split; [|split].
      * intros Hx. apply filter_out_gone in Hx as [Hx _]. contradiction.
      * intros _. split; [|tauto].
        intros Hx. apply filter_out_gone in Hx as [_ Hx]. contradiction.
      * apply filter_out_NoDup.
  - rewrite (toggleProtein_select _ _ Hp Hany Hout).
    split; [now destruct preferences|]. split; [|split].
    + intros [Hx|Hx]%elem_of_app; [contradiction|].
      apply list_elem_of_singleton in Hx. congruence.
    + intros _. split; [now left|]. intros _.
      apply elem_of_app. right. apply list_elem_of_here.
    + intros Hnd. apply NoDup_app. split; [exact Hnd|].
      split; [|apply NoDup_singleton].
      intros y Hy Hy'. apply list_elem_of_singleton in Hy'. congruence.
Qed.

(** X27.  Selecting a specific protein that is not selected and clicking it
    again restores the preferences, both from ["Any"] and from a list of
    specific proteins. *)
Theorem toggleProtein_twice (preferences : list Protein) (p : Protein) :
  p <> ANY ->
  p ∉ preferences ->
  preferences = [ANY] \/ (preferences <> [] /\ ANY ∉ preferences) ->
  toggleProtein (toggleProtein preferences p) p = preferences.
Proof.
  intros Hp Hout [->|[Hne Hany]].
  - rewrite (toggleProtein_from_any [ANY] p Hp) by apply list_elem_of_here.
    assert (Hany : ANY ∉ [p]).
    { intros H. apply list_elem_of_singleton in H. congruence. }
    rewrite (toggleProtein_deselect [p] p Hp Hany) by apply list_elem_of_here.
    cbn [List.filter]. now rewrite bool_decide_eq_true_2 by reflexivity.
  - rewrite (toggleProtein_select _ _ Hp Hany Hout).
    assert (Hany' : ANY ∉ preferences ++ [p]).
    { intros [H|H]%elem_of_app; [contradiction|].
      apply list_elem_of_singleton in H. congruence. }
    rewrite (toggleProtein_deselect _ p Hp Hany')
      by (apply elem_of_app; right; apply list_elem_of_here).
    rewrite List.filter_app, filter_out_absent by exact Hout.
    cbn [List.filter]. rewrite bool_decide_eq_true_2 by reflexivity.
    cbn [negb]. rewrite app_nil_r. now destruct preferences.
Qed.

Lemma toggleProtein_twice_witness :
  toggleProtein (toggleProtein [BEEF; FISH] CHICKEN) CHICKEN = [BEEF; FISH].
Proof.
  apply toggleProtein_twice.
  - discriminate.
  - intros H. repeat (apply elem_of_cons in H as [H|H]; [discriminate|]).
    now apply not_elem_of_nil in H.
  - right. split; [discriminate|].
    intros H. repeat (apply elem_of_cons in H as [H|H]; [discriminate|]).
    now apply not_elem_of_nil in H.
Defined.

End PlannerExtras.

(* ===================================================================== *)
(** * Labels, total and grouping of the shopping-list view *)
(* ===================================================================== *)

Module ListViewFacts.
Import JsString JsNumber Price ListView.

Lemma total_of_item cs : forall total,
  fold_left
    (fun total c =>
       match price c with
       | Some p =>
           if String.eqb p "" then total
           else match numericPart p with
                | Some matched => add total (parseFloat matched)
                | None => total
                end
       | None => total
       end)
    cs total
  = fold_left add
      (map parseFloat
         (omap numericPart
            (omap (fun c => match price c with
                            | Some p => if String.eqb p "" then None else Some p
                            | None => None
                            end) cs)))
      total.
Proof.
  induction cs as [|c t IH]; intros total; [reflexivity|].
  cbn [fold_left omap list_omap]. rewrite IH.
  destruct (price c) as [p|]; [|reflexivity].
  destruct (String.eqb p ""); [reflexivity|]. cbn [omap list_omap].
  now destruct (numericPart p).
Qed.

Lemma total_fold items : forall total,
  fold_left
    (fun total it =>
       fold_left
         (fun total c =>
            match price c with
            | Some p =>
                if String.eqb p "" then total
                else match numericPart p with
                     | Some matched => add total (parseFloat matched)
                     | None => total
                     end
            | None => total
            end)
         (contributions it) total)
    items total
  = fold_left add
      (map parseFloat (omap numericPart (flat_map pricesOf items))) total.
Proof.
  induction items as [|it t IH]; intros total; [reflexivity|].
  cbn [fold_left flat_map]. rewrite IH, total_of_item.
  rewrite omap_app, map_app, fold_left_app. reflexivity.
Qed.

(** The distinct values seen so far. *)
Lemma distinct_fold xs : forall seen,
  NoDup seen ->
  NoDup (fold_left (fun (seen : list string) x => if bool_decide (x ∈ seen) then seen
                                  else seen ++ [x]) xs seen)
  /\ forall x, x ∈ fold_left (fun (seen : list string) x => if bool_decide (x ∈ seen) then seen
                                            else seen ++ [x]) xs seen
               <-> x ∈ seen \/ x ∈ xs.
Proof.
  induction xs as [|y t IH]; intros seen Hnd; cbn [fold_left].
  - split; [exact Hnd|]. intros x. split; [now left|].
    intros [H|H]; [exact H|]. now apply not_elem_of_nil in H.
  - destruct (bool_decide_reflect (y ∈ seen)) as [Hin|Hout].
    + destruct (IH seen Hnd) as [H1 H2]. split; [exact H1|].
      intros x. rewrite H2, elem_of_cons. split; [tauto|].
      intros [H|[->|H]]; tauto.
    + assert (Hnd' : NoDup (seen ++ [y])).
      { apply NoDup_app. split; [exact Hnd|]. split; [|apply NoDup_singleton].
        intros z Hz Hz'. apply list_elem_of_singleton in Hz'. congruence. }
      destruct (IH (seen ++ [y]) Hnd') as [H1 H2]. split; [exact H1|].
      intros x. rewrite H2, elem_of_app, list_elem_of_singleton, elem_of_cons.
      tauto.
Qed.

Lemma distinct_all_equal (t : string) xs :
  Forall (fun x => x = t) xs ->
  fold_left (fun (seen : list string) x => if bool_decide (x ∈ seen) then seen else seen ++ [x])
            xs [t] = [t].
Proof.
  induction 1 as [|x rest -> _ IH]; [reflexivity|]. cbn [fold_left].
  rewrite bool_decide_eq_true_2 by apply list_elem_of_here. exact IH.
Qed.

Lemma grouped_snoc shopAt items it :
  groupedItems shopAt (items ++ [it])
  = <[storeKey shopAt it :=
        default [] (groupedItems shopAt items !! storeKey shopAt it) ++ [it]]>
      (groupedItems shopAt items).
Proof. unfold groupedItems. now rewrite fold_left_app. Qed.

End ListViewFacts.

Section ListViewExtras.
Import JsString JsNumber Price ListView ListViewFacts.

(** X28.  The estimated total is the in-order sum, from 0, of the first
    numeric substring of every non-empty price in the list; a price without
    digits is skipped (it does not cancel the total the way it cancels the
    summed price of a single line). *)
Theorem calculateTotal_priceSum (items : list ShoppingListItem) :
  calculateTotal items = priceSum (flat_map pricesOf items).
Proof. unfold calculateTotal, priceSum. apply total_fold. Qed.

(** X29.  The label of a line is its distinct contribution texts, in order of
    first appearance, joined by " + " (so the test for a single text changes
    nothing); texts repeated by several recipes appear once, and a line whose
    contributions all carry the same text shows just that text. *)
Theorem getItemDisplay_spec (it : ShoppingListItem) :
  getItemDisplay it = join " + " (distinct (map text (contributions it)))
  /\ NoDup (distinct (map text (contributions it)))
  /\ (forall x, x ∈ distinct (map text (contributions it))
                <-> x ∈ map text (contributions it))
  /\ (forall t, contributions it <> [] ->
        Forall (fun c => text c = t) (contributions it) ->
        getItemDisplay it = t).
Proof.
  split; [|split; [|split]].
  - unfold getItemDisplay. now destruct (distinct _) as [|x [|y t]].
  - apply distinct_fold. constructor.
  - intros x. unfold distinct.
    rewrite (proj2 (distinct_fold _ [] (NoDup_nil_2)) x).
    split; [intros [H|H]; [now apply not_elem_of_nil in H|exact H]|now right].
  - intros t Hne Hall. unfold getItemDisplay.
    destruct (contributions it) as [|c cs]; [contradiction|].
    apply Forall_cons in Hall as [Hc Hcs]. unfold distinct. cbn [map fold_left].
    rewrite bool_decide_eq_false_2 by apply not_elem_of_nil. cbn [app].
    rewrite Hc, distinct_all_equal; [reflexivity|].
    apply Forall_fmap. eapply Forall_impl; [exact Hcs|]. intros c' H. exact H.
Qed.

(** X30.  Grouping by store loses and duplicates nothing: the group of a key
    holds exactly the items with that store key, in list order, and a key
    without items has no group.  The key is the selected supermarket when one
    is selected, and otherwise one of "Aldi", "Coles", "Woolworths" and
    "Other". *)
Theorem groupedItems_spec (shopAt : Supermarket) (items : list ShoppingListItem) :
  (forall k,
      groupedItems shopAt items !! k
      = match List.filter (fun it => String.eqb (storeKey shopAt it) k) items with
        | [] => None
        | g => Some g
        end)
  /\ (forall it,
        shopAt <> AnyStore -> storeKey shopAt it = supermarketName shopAt)
  /\ (forall it,
        storeKey AnyStore it = "Aldi" \/ storeKey AnyStore it = "Coles"
        \/ storeKey AnyStore it = "Woolworths" \/ storeKey AnyStore it = "Other").
Proof.
  split; [|split].
  - induction items as [|it l IH] using rev_ind; intros k.
    + apply lookup_empty.
    + rewrite grouped_snoc, List.filter_app. cbn [List.filter].
      destruct (String.eqb_spec (storeKey shopAt it) k) as [->|Hne].
      * rewrite lookup_insert_eq, IH.
        now destruct (List.filter _ l).
      * rewrite lookup_insert_ne by exact Hne. rewrite IH, app_nil_r. reflexivity.
  - intros it Hne. unfold storeKey.
    now rewrite bool_decide_eq_false_2 by exact Hne.
  - intros it. unfold storeKey. cbn [bool_decide negb].
    rewrite bool_decide_eq_true_2 by reflexivity. cbn [negb].
    destruct (includesStr (chars "aldi") _); [now left|].
    destruct (includesStr (chars "coles") _); [right; now left|].
    destruct (includesStr (chars "woolworths") _); [right; right; now left|].
    right; right; now right.
Qed.

End ListViewExtras.
